(** * Resident QI tracker: the data layer of [app.py]

    A shallow embedding of the table operations that [app.py] performs on
    its two pandas frames (projects and PDSA cycles), and of the storage
    set-up done by [ensure_data_dir].

    Conventions of the embedding.
    - A frame is the list of its rows, in index order.  After [read_csv],
      [reset_index(drop=True)] and [concat(..., ignore_index=True)] the index
      is [0 .. n-1], so an index label is a position in the list.
    - The [id] and [project_id] columns are int64 columns: their cells are
      integers in [-2^63, 2^63), and numpy scalar addition wraps around.
    - A text column is an object column: a cell is a Python [str] or [NaN].
      A text column that [read_csv] would infer as numeric or boolean is
      outside the model (see [read_text_column]).
    - A character is a code point below 256. *)

From Stdlib Require Import ZArith Lia List Ascii String DecimalString DecimalZ.
From stdpp Require Import base decidable option list gmap sets strings sorting.

Local Open Scope Z_scope.
Local Open Scope string_scope.
Local Open Scope list_scope.

(** ** Outcomes of a run *)

(** The exceptions the modelled code paths can raise. *)
Inductive exn : Type :=
  | KeyError
  | AttributeError
  | ParserError
  | OSError.

(** [Unmodelled] marks an input on which Python's behaviour is not covered
    by the embedding (a regular expression outside the modelled syntax, a
    column of numbers read into a text field). *)
Inductive outcome (A : Type) : Type :=
  | Ok (a : A)
  | Raises (e : exn)
  | Unmodelled.
Arguments Ok {A} a.
Arguments Raises {A} e.
Arguments Unmodelled {A}.

#[global] Instance outcome_ret : MRet outcome := fun A a => Ok a.

#[global] Instance outcome_bind : MBind outcome := fun A B k m =>
  match m with
  | Ok a => k a
  | Raises e => Raises e
  | Unmodelled => Unmodelled
  end.

(** ** Cells, rows and frames *)

Inductive cell : Type :=
  | NaN
  | Str (s : string).

#[global] Instance cell_eq_dec : EqDecision cell.
Proof. solve_decision. Defined.

Record Project : Type := mkProject {
  id : Z;
  title : cell;
  smart_aim : cell;
  problem_statement : cell;
  status : cell;
  metrics : cell;
  advisor : cell;
  service : cell;
  start_date : cell;
  end_date : cell;
  tags : cell
}.

Record PdsaCycle : Type := mkPdsa {
  project_id : Z;
  cycle_name : cell;
  plan : cell;
  do : cell;
  study : cell;
  act : cell;
  date : cell
}.

#[global] Instance Project_eq_dec : EqDecision Project.
Proof. solve_decision. Defined.

#[global] Instance PdsaCycle_eq_dec : EqDecision PdsaCycle.
Proof. solve_decision. Defined.

(** ** int64 arithmetic *)

Definition int64_min : Z := - 2 ^ 63.
Definition int64_max : Z := 2 ^ 63 - 1.

Definition in_int64 (z : Z) : Prop := int64_min <= z <= int64_max.

(** Two's complement wrap-around of a numpy int64 scalar operation. *)
Definition wrap64 (z : Z) : Z := (z + 2 ^ 63) mod 2 ^ 64 - 2 ^ 63.

(** ** Identifiers (app.py, line 119) *)

(** [projects["id"].max()] on a frame that is not empty. *)
Definition id_max (p : Project) (rest : list Project) : Z :=
  foldr (fun q m => Z.max (id q) m) (id p) rest.

(** [projects["id"].max() + 1 if not projects.empty else 1] *)
Definition next_id (projects : list Project) : Z :=
  match projects with
  | [] => 1
  | p :: rest => wrap64 (id_max p rest + 1)
  end.

(** ** Repository mutations (the button handlers of [main]) *)

(** "Add new project" (lines 118-135): the row that is appended.  [today] is
    [datetime.now().strftime("%Y-%m-%d")]. *)
Definition new_project (new_id : Z) (today : string) : Project :=
  {| id := new_id;
     title := Str "";
     smart_aim := Str "";
     problem_statement := Str "";
     status := Str "In Progress";
     metrics := Str "";
     advisor := Str "";
     service := Str "";
     start_date := Str today;
     end_date := Str "";
     tags := Str "" |}.

(** [pd.concat([projects, new_project], ignore_index=True)] *)
Definition add_project (projects : list Project) (today : string) : list Project :=
  projects ++ [new_project (next_id projects) today].

(** The values read from the project form (lines 143-168). *)
Record ProjectForm : Type := mkForm {
  f_title : string;
  f_smart : string;
  f_problem : string;
  f_status : string;
  f_metrics : string;
  f_advisor : string;
  f_service : string;
  f_start_date : string;
  f_end_date : string;
  f_tags_input : string
}.

(** Lines 170-179: every column but [id] is assigned at the selected row. *)
Definition save_form (f : ProjectForm) (p : Project) : Project :=
  {| id := id p;
     title := Str (f_title f);
     smart_aim := Str (f_smart f);
     problem_statement := Str (f_problem f);
     status := Str (f_status f);
     metrics := Str (f_metrics f);
     advisor := Str (f_advisor f);
     service := Str (f_service f);
     start_date := Str (f_start_date f);
     end_date := Str (f_end_date f);
     tags := Str (f_tags_input f) |}.

(** "Save Project".  [projects.loc[selected_index]] at line 140 raises
    [KeyError] for a label that is not in the index. *)
Definition update_project (projects : list Project) (selected_index : nat)
    (f : ProjectForm) : outcome (list Project) :=
  match projects !! selected_index with
  | None => Raises KeyError
  | Some _ => Ok (alter (save_form f) selected_index projects)
  end.

(** "Delete project" (lines 182-185).  [project] is the row read at line 140;
    [drop(index=...)] removes the row at that label and
    [pdsa[pdsa["project_id"] != project["id"]]] keeps the other cycles. *)
Definition delete_project (projects : list Project) (pdsa : list PdsaCycle)
    (selected_index : nat) : outcome (list Project * list PdsaCycle) :=
  match projects !! selected_index with
  | None => Raises KeyError
  | Some project =>
      Ok (delete selected_index projects,
          filter (fun c => project_id c ≠ id project) pdsa)
  end.


(** "Save PDSA cycles" (lines 194-195): [edited_pdsa] is what the data editor
    returns. *)
Definition replace_pdsa_for_project (pdsa : list PdsaCycle) (pid : Z)
    (edited_pdsa : list PdsaCycle) : list PdsaCycle :=
  let other_pdsa := filter (fun c => project_id c ≠ pid) pdsa in
  other_pdsa ++ edited_pdsa.

(** ** Python string operations *)

(** The code points below 256 for which [str.isspace] holds; they are what
    [str.strip()] removes. *)
Definition whitespace : list ascii :=
  map ascii_of_nat [9; 10; 11; 12; 13; 28; 29; 30; 31; 32; 133; 160]%nat.

Definition is_space (c : ascii) : bool := existsb (Ascii.eqb c) whitespace.

Definition comma : ascii := ","%char.

(** [s.split(",")] *)
Fixpoint split_comma (s : string) : list string :=
  match s with
  | EmptyString => [""]
  | String c rest =>
      if Ascii.eqb c comma then "" :: split_comma rest
      else match split_comma rest with
           | [] => [String c ""]
           | piece :: pieces => String c piece :: pieces
           end
  end.

Fixpoint lstrip (s : string) : string :=
  match s with
  | EmptyString => ""
  | String c rest => if is_space c then lstrip rest else s
  end.

Fixpoint rstrip (s : string) : string :=
  match s with
  | EmptyString => ""
  | String c rest =>
      match rstrip rest with
      | EmptyString => if is_space c then "" else String c ""
      | r => String c r
      end
  end.

(** [s.strip()] *)
Definition strip (s : string) : string := rstrip (lstrip s).

(** ** Tags offered in the side bar (lines 92-97) *)

(** [projects["tags"].fillna("")] followed by [str(tag_list)]. *)
Definition fillna_empty (c : cell) : string :=
  match c with
  | NaN => ""
  | Str s => s
  end.

(** The inner loop: one [tags] value added to [tag_set]. *)
Definition add_tags (tag_set : gset string) (tag_list : string) : gset string :=
  foldl (fun acc tag =>
           let tag := strip tag in
           if decide (tag = "") then acc else {[ tag ]} ∪ acc)
        tag_set (split_comma tag_list).

Definition distinct_tags (projects : list Project) : gset string :=
  foldl add_tags ∅ ((fun p => fillna_empty (tags p)) <$> projects).

(** ** Regular expressions: the part of [re] that is modelled *)

(** [Series.str.contains(pat, na=False)] is called with its default
    [regex=True]: [pat] is compiled by [re.compile] and each cell is tested
    with [search].  The embedding covers the patterns made of ordinary
    characters and of [.]; a pattern that uses any other special character
    is [Unmodelled]. *)
Inductive atom : Type :=
  | Lit (c : ascii)
  | AnyChar.

Definition special_chars : list ascii :=
  list_ascii_of_string ".^$*+?{}[]\|()".

Definition is_special (c : ascii) : bool := existsb (Ascii.eqb c) special_chars.

Definition newline : ascii := ascii_of_nat 10.

Fixpoint re_compile (pat : string) : outcome (list atom) :=
  match pat with
  | EmptyString => Ok []
  | String c rest =>
      if Ascii.eqb c "."%char then r ← re_compile rest; Ok (AnyChar :: r)
      else if is_special c then Unmodelled
      else r ← re_compile rest; Ok (Lit c :: r)
  end.

Definition atom_matches (a : atom) (c : ascii) : bool :=
  match a with
  | Lit l => Ascii.eqb l c
  | AnyChar => negb (Ascii.eqb c newline)
  end.

(** [r.match(s)]: the pattern matches at the start of [s]. *)
Fixpoint re_match (r : list atom) (s : string) : bool :=
  match r, s with
  | [], _ => true
  | _ :: _, EmptyString => false
  | a :: r', String c s' => atom_matches a c && re_match r' s'
  end.

(** [r.search(s) is not None]: the pattern matches somewhere in [s]. *)
Fixpoint re_search (r : list atom) (s : string) : bool :=
  re_match r s ||
  match s with
  | EmptyString => false
  | String _ s' => re_search r s'
  end.

(** One cell of [.str.contains(pat, na=False)]: a missing value gives
    [False]. *)
Definition str_contains (r : list atom) (c : cell) : bool :=
  match c with
  | NaN => false
  | Str s => re_search r s
  end.

(** ** Filtering (lines 101-105) *)

Definition is_str (c : cell) : bool :=
  match c with
  | NaN => false
  | Str _ => true
  end.

(** The dtype of the [tags] column of a frame as [read_csv] returns it:
    [object] when the frame has no row or some cell is text, [float64] when
    every cell of a frame with rows is missing. *)
Definition tags_is_object (projects : list Project) : bool :=
  match projects with
  | [] => true
  | _ :: _ => existsb (fun p => is_str (tags p)) projects
  end.

(** [filtered[filtered["status"] == selected_status]] *)
Definition filter_status (selected_status : string) (frame : list Project) : list Project :=
  filter (fun p => status p = Str selected_status) frame.

(** The [.str] accessor raises [AttributeError] on a column that is not of
    object dtype, before the pattern is looked at. *)
Definition filter_projects (projects : list Project)
    (selected_status selected_tag : string) : outcome (list Project) :=
  let filtered := projects in
  let filtered :=
    if decide (selected_status ≠ "All") then filter_status selected_status filtered
    else filtered in
  if decide (selected_tag ≠ "All") then
    if tags_is_object projects then
      r ← re_compile selected_tag;
      Ok (filter (fun p => Is_true (str_contains r (tags p))) filtered)
    else Raises AttributeError
  else Ok filtered.

(** ** CSV files: [to_csv(index=False)] and [read_csv] *)

(** A CSV file is held as the table of field texts it encodes: the header
    and one list of fields per record.  Quoting and line breaks are the
    business of pandas's writer and tokenizer; the writer's treatment of a
    carriage return inside a field depends on the Python version and the
    tokenizer's treatment of NUL on the pandas version, so a frame with such
    a field is [Unmodelled]. *)
Record table : Type := mkTable {
  header : list string;
  rows : list (list string)
}.

#[global] Instance table_eq_dec : EqDecision table.
Proof. solve_decision. Defined.

Definition projects_columns : list string :=
  ["id"; "title"; "smart_aim"; "problem_statement"; "status"; "metrics";
   "advisor"; "service"; "start_date"; "end_date"; "tags"].

Definition pdsa_columns : list string :=
  ["project_id"; "cycle_name"; "plan"; "do"; "study"; "act"; "date"].

(** The characters whose treatment in a field is not modelled: NUL and the
    carriage return. *)
Definition unsafe_chars : list ascii := [ascii_of_nat 0; ascii_of_nat 13].

Definition has_unsafe_char (s : string) : bool :=
  existsb (fun c => existsb (Ascii.eqb c) unsafe_chars) (list_ascii_of_string s).

(** A missing value is written as the empty field. *)
Definition write_text (c : cell) : outcome string :=
  match c with
  | NaN => Ok ""
  | Str s => if has_unsafe_char s then Unmodelled else Ok s
  end.

(** An int64 cell is written in decimal. *)
Definition write_int (z : Z) : string := NilZero.string_of_int (Z.to_int z).

(** A row as its int64 key and its text cells, in column order. *)
Definition project_cells (p : Project) : Z * list cell :=
  (id p, [title p; smart_aim p; problem_statement p; status p; metrics p;
          advisor p; service p; start_date p; end_date p; tags p]).

Definition pdsa_cells (c : PdsaCycle) : Z * list cell :=
  (project_id c, [cycle_name c; plan c; do c; study c; act c; date c]).

Definition project_of_cells (r : Z * list cell) : Project :=
  let cs := r.2 in
  {| id := r.1;
     title := nth 0 cs NaN;
     smart_aim := nth 1 cs NaN;
     problem_statement := nth 2 cs NaN;
     status := nth 3 cs NaN;
     metrics := nth 4 cs NaN;
     advisor := nth 5 cs NaN;
     service := nth 6 cs NaN;
     start_date := nth 7 cs NaN;
     end_date := nth 8 cs NaN;
     tags := nth 9 cs NaN |}.

Definition pdsa_of_cells (r : Z * list cell) : PdsaCycle :=
  let cs := r.2 in
  {| project_id := r.1;
     cycle_name := nth 0 cs NaN;
     plan := nth 1 cs NaN;
     do := nth 2 cs NaN;
     study := nth 3 cs NaN;
     act := nth 4 cs NaN;
     date := nth 5 cs NaN |}.

Definition write_row (r : Z * list cell) : outcome (list string) :=
  fields ← mapM write_text r.2;
  Ok (write_int r.1 :: fields).

Definition to_csv (columns : list string) (frame : list (Z * list cell)) : outcome table :=
  rs ← mapM write_row frame;
  Ok (mkTable columns rs).

(** [read_csv]'s default missing-value markers.  ["None"] joined them in
    pandas 2.0, so a column that holds it is [Unmodelled]. *)
Definition na_values : list string :=
  [""; "#N/A"; "#N/A N/A"; "#NA"; "-1.#IND"; "-1.#QNAN"; "-NaN"; "-nan";
   "1.#IND"; "1.#QNAN"; "<NA>"; "N/A"; "NA"; "NULL"; "NaN"; "n/a"; "nan";
   "null"].

Definition is_na (s : string) : bool := bool_decide (s ∈ na_values).

Definition to_lower (c : ascii) : ascii :=
  let n := nat_of_ascii c in
  if (Nat.leb 65 n && Nat.leb n 90)%bool then ascii_of_nat (n + 32) else c.

Fixpoint lower (s : string) : string :=
  match s with
  | EmptyString => ""
  | String c rest => String (to_lower c) (lower rest)
  end.

(** The reader's boolean words, which it compares without regard to case. *)
Definition bool_values : list string := ["true"; "false"].

(** The characters that can occur in a field the reader converts to a
    number: digits, signs, the decimal point, the exponent mark, blanks and
    the letters of [inf], [infinity] and [nan]. *)
Definition numeric_chars : list ascii :=
  list_ascii_of_string "0123456789+-.eEinfatyINFATY" ++ whitespace.

Definition is_digit (c : ascii) : bool :=
  existsb (Ascii.eqb c) (list_ascii_of_string "0123456789").

Definition is_sign (c : ascii) : bool :=
  Ascii.eqb c "+"%char || Ascii.eqb c "-"%char.

(** A sign that directly follows a digit, as in [2024-01-01]: no number has
    one. *)
Fixpoint sign_after_digit (s : string) : bool :=
  match s with
  | String c ((String d _) as rest) =>
      (is_digit c && is_sign d) || sign_after_digit rest
  | _ => false
  end.

Definition has_other_char (s : string) : bool :=
  existsb (fun c => negb (existsb (Ascii.eqb c) numeric_chars))
          (list_ascii_of_string s).

(** A field that is neither a missing-value marker nor convertible to a
    number or a boolean: a column that holds one is read as text. *)
Definition surely_text (s : string) : bool :=
  negb (is_na s) && negb (bool_decide (s = "None")) &&
  negb (bool_decide (lower s ∈ bool_values)) &&
  (has_other_char s || sign_after_digit s).

Definition parse_cell (s : string) : cell :=
  if is_na s then NaN else Str s.

(** Type inference on a text column.  A column of missing values only is a
    float64 column of [NaN]; a column with a [surely_text] field is an object
    column; what is left would be read as numbers or booleans. *)
Definition read_text_column (fields : list string) : outcome (list cell) :=
  if existsb (fun s => bool_decide (s = "None")) fields then Unmodelled
  else if forallb is_na fields then Ok ((fun _ => NaN) <$> fields)
  else if existsb surely_text fields then Ok (parse_cell <$> fields)
  else Unmodelled.

Definition read_int (s : string) : outcome Z :=
  match NilZero.int_of_string s with
  | Some d =>
      let z := Z.of_int d in
      if bool_decide (in_int64 z) then Ok z else Unmodelled
  | None => Unmodelled
  end.

(** The key column is covered when every field is a decimal int64. *)
Definition read_int_column (fields : list string) : outcome (list Z) :=
  mapM read_int fields.

Definition column (j : nat) (rs : list (list string)) : list string :=
  (fun r => nth j r "") <$> rs.

Definition row_cells (i : nat) (cols : list (list cell)) : list cell :=
  (fun col => nth i col NaN) <$> cols.

(** [read_csv] on a table with the expected header, as a frame of keys and
    text cells. *)
Definition read_csv (columns : list string) (t : table) : outcome (list (Z * list cell)) :=
  let width := length columns in
  if bool_decide (header t = columns) &&
     forallb (fun r => Nat.eqb (length r) width) (rows t)
  then
    keys ← read_int_column (column 0 (rows t));
    cols ← mapM (fun j => read_text_column (column j (rows t))) (seq 1 (width - 1));
    Ok (imap (fun i z => (z, row_cells i cols)) keys)
  else Unmodelled.

(** ** The data folder *)

(** What is at the path [data]: nothing, something that is not a folder, or
    a folder with or without its two files. *)
Inductive storage : Type :=
  | Absent
  | NotADirectory
  | Directory (projects_csv pdsa_csv : option table).

#[global] Instance storage_eq_dec : EqDecision storage.
Proof. solve_decision. Defined.

Inductive path : Type :=
  | DATA_DIR
  | PROJECTS_FILE
  | PDSA_FILE.

(** [os.path.exists] *)
Definition path_exists (f : path) (s : storage) : bool :=
  match f, s with
  | _, Absent => false
  | DATA_DIR, _ => true
  | _, NotADirectory => false
  | PROJECTS_FILE, Directory p _ => bool_decide (is_Some p)
  | PDSA_FILE, Directory _ c => bool_decide (is_Some c)
  end.

(** Code that works on a state and may raise: the state at the time of the
    exception is kept. *)
Definition st (S A : Type) : Type := S → outcome A * S.

#[global] Instance st_ret {S} : MRet (st S) := fun A a s => (Ok a, s).

#[global] Instance st_bind {S} : MBind (st S) := fun A B k m s =>
  match m s with
  | (Ok a, s') => k a s'
  | (Raises e, s') => (Raises e, s')
  | (Unmodelled, s') => (Unmodelled, s')
  end.

(** A computation without effect on the state. *)
Definition pure {S A} (o : outcome A) : st S A := fun s => (o, s).

Abbreviation io := (st storage).

(** [os.makedirs(DATA_DIR)] *)
Definition makedirs : io unit := fun s =>
  match s with
  | Absent => (Ok (), Directory None None)
  | _ => (Raises OSError, s)
  end.

(** Writing a whole file; it fails when [data] is not a folder. *)
Definition write_file (f : path) (t : table) : io unit := fun s =>
  match f, s with
  | PROJECTS_FILE, Directory _ c => (Ok (), Directory (Some t) c)
  | PDSA_FILE, Directory p _ => (Ok (), Directory p (Some t))
  | _, _ => (Raises OSError, s)
  end.

(** Reading a whole file; a missing file is a [FileNotFoundError]. *)
Definition read_file (f : path) : io table := fun s =>
  match f, s with
  | PROJECTS_FILE, Directory (Some t) _ => (Ok t, s)
  | PDSA_FILE, Directory _ (Some t) => (Ok t, s)
  | _, _ => (Raises OSError, s)
  end.

Definition exists_ (f : path) : io bool := fun s => (Ok (path_exists f s), s).

(** The seed record of lines 17-31. *)
Definition example : Project :=
  {| id := 1;
     title := Str "Example Project";
     smart_aim := Str "Increase hand hygiene compliance by 10% within 3 months";
     problem_statement := Str "Current compliance is at 60%";
     status := Str "In Progress";
     metrics := Str "Compliance rate";
     advisor := Str "Dr. Smith";
     service := Str "Infection Control";
     start_date := Str "2024-01-01";
     end_date := Str "2024-04-01";
     tags := Str "hand hygiene" |}.

Definition projects_to_csv (projects : list Project) (f : path) : io unit :=
  t ← pure (to_csv projects_columns (project_cells <$> projects));
  write_file f t.

Definition pdsa_to_csv (pdsa : list PdsaCycle) (f : path) : io unit :=
  t ← pure (to_csv pdsa_columns (pdsa_cells <$> pdsa));
  write_file f t.

(** Lines 12-36. *)
Definition ensure_data_dir : io unit :=
  d ← exists_ DATA_DIR;
  _ ← (if negb d then makedirs else mret ());
  p ← exists_ PROJECTS_FILE;
  _ ← (if negb p then projects_to_csv [example] PROJECTS_FILE else mret ());
  c ← exists_ PDSA_FILE;
  if negb c then pdsa_to_csv [] PDSA_FILE else mret ().

Definition read_projects (t : table) : outcome (list Project) :=
  frame ← read_csv projects_columns t;
  Ok (project_of_cells <$> (frame : list (Z * list cell))).

Definition read_pdsa (t : table) : outcome (list PdsaCycle) :=
  frame ← read_csv pdsa_columns t;
  Ok (pdsa_of_cells <$> (frame : list (Z * list cell))).

(** Lines 39-43. *)
Definition load_data : io (list Project * list PdsaCycle) :=
  _ ← ensure_data_dir;
  pt ← read_file PROJECTS_FILE;
  projects ← pure (read_projects pt);
  ct ← read_file PDSA_FILE;
  pdsa ← pure (read_pdsa ct);
  mret (projects, pdsa).

(** Lines 46-48. *)
Definition save_data (projects : list Project) (pdsa : list PdsaCycle) : io unit :=
  _ ← projects_to_csv projects PROJECTS_FILE;
  pdsa_to_csv pdsa PDSA_FILE.

(** ** The import section of [main] (lines 55-84) *)

(** The variables [projects] and [pdsa] of [main], and the data folder. *)
Record session : Type := mkSession {
  disk : storage;
  projects_var : list Project;
  pdsa_var : list PdsaCycle
}.

Abbreviation script := (st session).

(** Running file code from [main]. *)
Definition on_disk {A} (m : io A) : script A := fun s =>
  let '(o, d) := m (disk s) in
  (o, mkSession d (projects_var s) (pdsa_var s)).

Definition set_projects (ps : list Project) : script unit := fun s =>
  (Ok (), mkSession (disk s) ps (pdsa_var s)).

Definition set_pdsa (cs : list PdsaCycle) : script unit := fun s =>
  (Ok (), mkSession (disk s) (projects_var s) cs).

(** [save_data(projects, pdsa)] on the current values of the variables. *)
Definition save_current : script unit := fun s =>
  on_disk (save_data (projects_var s) (pdsa_var s)) s.

Section Uploads.

(** pandas's tokenizer on an uploaded byte stream: the table it finds, or
    [ParserError] when the stream is not a table. *)
Variable tokenize : string → outcome table.

(** Lines 75-78. *)
Definition import_projects (uploaded_proj : option string) : script unit :=
  match uploaded_proj with
  | None => mret ()
  | Some bytes =>
      ps ← pure (t ← tokenize bytes; read_projects t);
      _ ← set_projects ps;
      save_current
  end.

(** Lines 81-84. *)
Definition import_pdsa (uploaded_pdsa : option string) : script unit :=
  match uploaded_pdsa with
  | None => mret ()
  | Some bytes =>
      cs ← pure (t ← tokenize bytes; read_pdsa t);
      _ ← set_pdsa cs;
      save_current
  end.

(** Lines 55-84: load, then the two uploaders in turn. *)
Definition main_import (uploaded_proj uploaded_pdsa : option string) : script unit :=
  loaded ← on_disk load_data;
  _ ← set_projects loaded.1;
  _ ← set_pdsa loaded.2;
  _ ← import_projects uploaded_proj;
  import_pdsa uploaded_pdsa.

End Uploads.

(** A tokenizer that knows one thing about pandas: a stream with no byte in
    it has no columns to parse. *)
Definition empty_stream_tokenizer (bytes : string) : outcome table :=
  match bytes with
  | EmptyString => Raises ParserError
  | _ => Unmodelled
  end.

(** ** Reference notions for the string operations *)

(** [",".join(pieces)] *)
Fixpoint join_comma (pieces : list string) : string :=
  match pieces with
  | [] => ""
  | [piece] => piece
  | piece :: rest => piece +:+ String comma (join_comma rest)
  end.

Definition chars (s : string) : list ascii := list_ascii_of_string s.

Definition all_space (s : string) : bool := forallb is_space (chars s).

Definition first_char (s : string) : option ascii := head (chars s).

Definition last_char (s : string) : option ascii := last (chars s).

(** Neither end of [s] is a whitespace character. *)
Definition trimmed (s : string) : Prop :=
  (∀ c, first_char s = Some c → is_space c = false) ∧
  (∀ c, last_char s = Some c → is_space c = false).

(** [sub] occurs in [s]: Python's [sub in s]. *)
Definition substring_of (sub s : string) : Prop :=
  ∃ before after, s = before +:+ sub +:+ after.

(** A pattern without special characters: [re] reads it as itself. *)
Definition literal_pattern (pat : string) : bool :=
  forallb (fun c => negb (is_special c)) (chars pat).


(** The rows kept by the status selector. *)
Definition status_selected (selected_status : string) (p : Project) : Prop :=
  selected_status = "All" ∨ status p = Str selected_status.

(** The rows kept by the tag selector, read as a substring test. *)
Definition tag_selected (selected_tag : string) (p : Project) : Prop :=
  selected_tag = "All" ∨ ∃ s, tags p = Str s ∧ substring_of selected_tag s.

(** ** Reference notions for the round trip through a file *)

(** What a cell is after it has been written and read again. *)
Definition read_back (c : cell) : cell := parse_cell (fillna_empty c).

(** The cells the embedding can follow through a file: a missing value, or
    a text without NUL or carriage return that is a missing-value marker
    (the empty text is one) or is [surely_text]. *)
Definition storable (c : cell) : bool :=
  match c with
  | NaN => true
  | Str s => negb (has_unsafe_char s) && negb (bool_decide (s = "None")) &&
             (is_na s || surely_text s)
  end.


Definition storable_row (r : Z * list cell) : Prop :=
  in_int64 r.1 ∧ Forall (fun c => storable c = true) r.2.

Definition read_back_row (r : Z * list cell) : Z * list cell :=
  (r.1, read_back <$> r.2).

Definition read_back_project (p : Project) : Project :=
  project_of_cells (read_back_row (project_cells p)).

Definition read_back_cycle (c : PdsaCycle) : PdsaCycle :=
  pdsa_of_cells (read_back_row (pdsa_cells c)).

(** The fields written for a row. *)
Definition row_fields (r : Z * list cell) : list string :=
  write_int r.1 :: (fillna_empty <$> r.2).

(** ** The option lists of the side bar (lines 88 and 98) *)

(** The order of Python's [str]: by code point, a prefix first. *)
Definition str_le (s1 s2 : string) : Prop := String.leb s1 s2 = true.

#[global] Instance str_le_dec : RelDecision str_le.
Proof. intros s1 s2. unfold str_le. apply _. Defined.

(** [sorted(...)] on texts.  The order is total and two texts that compare
    equal are the same text, so every sorting algorithm returns the same
    list. *)
Definition sorted (l : list string) : list string := merge_sort str_le l.

(** [.dropna()] on a text column *)
Definition dropna (col : list cell) : list string :=
  omap (fun c => match c with NaN => None | Str s => Some s end) col.

(** [.unique()]: the values in order of first appearance. *)
Fixpoint unique (l : list string) : list string :=
  match l with
  | [] => []
  | x :: rest => x :: filter (fun y => y ≠ x) (unique rest)
  end.

(** Line 88. *)
Definition statuses (projects : list Project) : list string :=
  "All" :: sorted (unique (dropna (status <$> projects))).

(** Line 98; the variable is called [tags] in the source. *)
Definition tag_options (projects : list Project) : list string :=
  "All" :: sorted (elements (distinct_tags projects)).

(** ** Selection of a project (lines 101-114 and 139-140) *)

(** A frame with its index: each row beside its label. *)
Definition with_index (projects : list Project) : list (nat * Project) :=
  imap (fun i p => (i, p)) projects.

(** Lines 101-105 with the index kept: boolean indexing keeps, for each row
    of the result, the label it has in [projects]. *)
Definition filter_rows (projects : list Project)
    (selected_status selected_tag : string) : outcome (list (nat * Project)) :=
  let filtered := with_index projects in
  let filtered :=
    if decide (selected_status ≠ "All")
    then filter (fun r => status r.2 = Str selected_status) filtered
    else filtered in
  if decide (selected_tag ≠ "All") then
    if tags_is_object projects then
      r ← re_compile selected_tag;
      Ok (filter (fun row => Is_true (str_contains r (tags row.2))) filtered)
    else Raises AttributeError
  else Ok filtered.

(** [filtered.index], the options of the radio; [format_func] shows for a
    label the title [filtered.loc[idx, "title"]]. *)
Definition radio_options (rows : list (nat * Project)) : list nat := fst <$> rows.

(** ** The PDSA handlers (lines 190-219) *)

(** Line 190: the cycles shown for the selected project. *)
Definition project_pdsa (pdsa : list PdsaCycle) (project : Project) : list PdsaCycle :=
  filter (fun c => project_id c = id project) pdsa.




(** "Save PDSA cycles" on the project selected at line 140; the button is
    shown when the project has cycles (line 191). *)
Definition save_pdsa_cycles (projects : list Project) (pdsa : list PdsaCycle)
    (selected_index : nat) (edited_pdsa : list PdsaCycle) : outcome (list PdsaCycle) :=
  match projects !! selected_index with
  | None => Raises KeyError
  | Some project => Ok (replace_pdsa_for_project pdsa (id project) edited_pdsa)
  end.


(** ** The project form (lines 143-168) *)

(** [str(project.get(...))]: a missing value is shown as the text [nan]. *)
Definition py_str (c : cell) : string :=
  match c with
  | NaN => "nan"
  | Str s => s
  end.

Definition status_options : list string :=
  ["In Progress"; "Completed"; "On Hold"; "Cancelled"].

(** [l.index(x)], for an [x] that is in [l]. *)
Fixpoint index_of (x : string) (l : list string) : nat :=
  match l with
  | [] => 0
  | y :: rest => if decide (y = x) then 0 else S (index_of x rest)
  end.

(** Lines 151-153: the option the select box starts on. *)
Definition status_index (c : cell) : nat :=
  match c with
  | Str s => if decide (s ∈ status_options) then index_of s status_options else 0%nat
  | NaN => 0%nat
  end.

(** The form as it opens on a project.  The two dates are what the date
    widgets hand back, formatted by [strftime]. *)
Definition form_defaults (project : Project) (start_date_ end_date_ : string) : ProjectForm :=
  {| f_title := py_str (title project);
     f_smart := py_str (smart_aim project);
     f_problem := py_str (problem_statement project);
     f_status := nth (status_index (status project)) status_options "In Progress";
     f_metrics := py_str (metrics project);
     f_advisor := py_str (advisor project);
     f_service := py_str (service project);
     f_start_date := start_date_;
     f_end_date := end_date_;
     f_tags_input := py_str (tags project) |}.

(** * Properties *)

(** ** Identifiers *)

Lemma id_max_upper (p : Project) (rest : list Project) :
  id p <= id_max p rest ∧ Forall (fun q => id q <= id_max p rest) rest.
Proof.
  induction rest as [|q rest [IHp IHrest]]; simpl.
  - split; [lia | constructor].
  - split; [lia |].
    constructor; [lia |].
    eapply Forall_impl; [exact IHrest | simpl; intros; lia].
Qed.

Lemma id_max_elem (p : Project) (rest : list Project) :
  id_max p rest ∈ id <$> (p :: rest).
Proof.
  apply list_elem_of_fmap.
  induction rest as [|q rest (r & Hr & Hin)]; simpl.
  - exists p. split; [reflexivity | left].
  - destruct (Z.max_spec (id q) (id_max p rest)) as [[_ ->] | [_ ->]].
    + exists r. split; [exact Hr |].
      apply elem_of_cons in Hin as [-> | Hin]; [left | do 2 right; exact Hin].
    + exists q. split; [reflexivity | right; left].
Qed.

Lemma wrap64_id (z : Z) : in_int64 z → wrap64 z = z.
Proof.
  unfold in_int64, int64_min, int64_max, wrap64. intros H.
  rewrite Z.mod_small; lia.
Qed.

Lemma next_id_fresh (projects : list Project) :
  Forall (fun p => int64_min <= id p < int64_max) projects →
  Forall (fun p => id p < next_id projects) projects.
Proof.
  destruct projects as [|p rest]; [constructor |].
  intros Hb. simpl.
  destruct (id_max_upper p rest) as [Hp Hrest].
  assert (Hm : int64_min <= id_max p rest < int64_max).
  { pose proof (id_max_elem p rest) as He.
    apply list_elem_of_fmap in He as (q & -> & Hq).
    rewrite Forall_forall in Hb. apply Hb. exact Hq. }
  rewrite wrap64_id by (unfold in_int64, int64_min, int64_max in *; lia).
  constructor; [lia |].
  eapply Forall_impl; [exact Hrest | simpl; intros; lia].
Qed.

(** C3 (as stated, it fails): on a frame whose largest id is the largest
    int64, [next_id] wraps around to the smallest int64 instead of returning
    the maximum plus one. *)
Lemma next_id_wraps_at_int64_max :
  let projects := [new_project int64_max "2024-01-01"] in
  Forall (fun p => in_int64 (id p)) projects ∧
  next_id projects = int64_min ∧
  next_id projects ≠ id_max (new_project int64_max "2024-01-01") [] + 1.
Proof.
  split; [| split].
  - repeat constructor; vm_compute; discriminate.
  - reflexivity.
  - vm_compute. discriminate.
Qed.

(** C3 (amended): [next_id] returns 1 on the empty frame; on a frame whose
    ids are int64 values below the largest int64 it returns the maximum
    existing id plus 1. *)
Theorem next_id_spec (projects : list Project) :
  Forall (fun p => int64_min <= id p < int64_max) projects →
  match projects with
  | [] => next_id projects = 1
  | _ :: _ =>
      ∃ m, m ∈ id <$> projects ∧
           Forall (fun p => id p <= m) projects ∧
           next_id projects = m + 1
  end.
Proof.
  intros Hb. destruct projects as [|p rest]; [reflexivity |].
  exists (id_max p rest). split; [apply id_max_elem | split].
  - destruct (id_max_upper p rest). by constructor.
  - simpl. apply wrap64_id.
    pose proof (id_max_elem p rest) as He.
    apply list_elem_of_fmap in He as (q & Hq & Hin).
    rewrite Forall_forall in Hb. specialize (Hb q Hin).
    unfold in_int64, int64_min, int64_max in *. lia.
Qed.

Lemma next_id_spec_witness :
  ∃ m, m ∈ [1; 3] ∧ next_id [new_project 1 ""; new_project 3 ""] = m + 1 ∧ m + 1 = 4.
Proof.
  destruct (next_id_spec [new_project 1 ""; new_project 3 ""]) as (m & Hm & Hle & Hn).
  - repeat constructor; vm_compute; congruence.
  - exists m. split; [exact Hm | split; [exact Hn |]].
    rewrite <- Hn. reflexivity.
Defined.

(** ** Uniqueness of project ids *)

Lemma save_form_id (f : ProjectForm) (p : Project) : id (save_form f p) = id p.
Proof. reflexivity. Qed.

Lemma update_project_ids (projects projects' : list Project) (i : nat) (f : ProjectForm) :
  update_project projects i f = Ok projects' →
  id <$> projects' = id <$> projects.
Proof.
  unfold update_project. destruct (projects !! i); [| discriminate].
  intros [= <-].
  rewrite (list_fmap_alter id (save_form f) (fun z => z)).
  - apply list_alter_id. reflexivity.
  - apply Forall_true. intros q. apply save_form_id.
Qed.

(** C9 (as stated, it fails): two distinct ids, the largest and the smallest
    int64; the id given to the added project wraps around to the smallest
    one, which is taken. *)
Lemma add_project_duplicates_id_at_int64_max :
  let projects := [new_project int64_max "2024-01-01"; new_project int64_min "2024-01-01"] in
  NoDup (id <$> projects) ∧
  Forall (fun p => in_int64 (id p)) projects ∧
  ¬ NoDup (id <$> add_project projects "2024-01-02").
Proof.
  split; [| split].
  - apply (bool_decide_unpack _). vm_compute. exact I.
  - repeat constructor; vm_compute; discriminate.
  - apply (bool_decide_unpack _). vm_compute. exact I.
Qed.

(** C9 (amended): when the ids of a frame are pairwise distinct, so are
    the ids after "Add new project" provided the ids are int64 values below
    the largest int64, after "Save Project", and after "Delete project". *)
Theorem project_ids_stay_unique (projects : list Project) :
  NoDup (id <$> projects) →
  (∀ today,
     Forall (fun p => int64_min <= id p < int64_max) projects →
     NoDup (id <$> add_project projects today)) ∧
  (∀ i f projects',
     update_project projects i f = Ok projects' →
     NoDup (id <$> projects')) ∧
  (∀ pdsa i projects' pdsa',
     delete_project projects pdsa i = Ok (projects', pdsa') →
     NoDup (id <$> projects')).
Proof.
  intros Hnd. split; [| split].
  - intros today Hb. unfold add_project.
    rewrite fmap_app. apply NoDup_app. split; [exact Hnd | split].
    + intros z Hz Hnew. simpl in Hnew.
      apply list_elem_of_singleton in Hnew.
      apply list_elem_of_fmap in Hz as (p & -> & Hp).
      pose proof (next_id_fresh projects Hb) as Hfresh.
      rewrite Forall_forall in Hfresh. specialize (Hfresh p Hp). lia.
    + simpl. apply NoDup_singleton.
  - intros i f projects' Hup.
    rewrite (update_project_ids _ _ _ _ Hup). exact Hnd.
  - intros pdsa i projects' pdsa'. unfold delete_project.
    destruct (projects !! i); [| discriminate].
    intros [= <- _].
    eapply sublist_NoDup; [exact Hnd |].
    apply fmap_sublist, sublist_delete.
Qed.

Lemma project_ids_stay_unique_witness :
  NoDup (id <$> add_project [example] "2024-01-02").
Proof.
  apply (project_ids_stay_unique [example]).
  - apply (bool_decide_unpack _). vm_compute. exact I.
  - repeat constructor; vm_compute; congruence.
Defined.

(** ** Cascade delete and bulk replacement of cycles *)

(** Splitting a frame with a row filter loses and invents no row. *)
Lemma keep_others_partition (pid : Z) (pdsa : list PdsaCycle) :
  filter (fun c => project_id c = pid) pdsa ++
  filter (fun c => project_id c ≠ pid) pdsa ≡ₚ pdsa.
Proof. apply (filter_app_complement (fun c => project_id c = pid)). Qed.

Lemma filter_all {A} (P : A → Prop) `{∀ x, Decision (P x)} (l : list A) :
  Forall P l → filter P l = l.
Proof.
  induction 1 as [|x l Hx _ IH]; [reflexivity |].
  rewrite filter_cons_True by exact Hx. by rewrite IH.
Qed.

Lemma filter_none {A} (P : A → Prop) `{∀ x, Decision (P x)} (l : list A) :
  Forall (fun x => ¬ P x) l → filter P l = [].
Proof.
  induction 1 as [|x l Hx _ IH]; [reflexivity |].
  rewrite filter_cons_False by exact Hx. exact IH.
Qed.



(** What "Save PDSA cycles" does for any edited table: the rows of the
    edited table are appended as they are, whatever project they name. *)
Lemma replace_pdsa_split (pdsa : list PdsaCycle) (pid : Z) (edited_pdsa : list PdsaCycle) :
  filter (fun c => project_id c ≠ pid) (replace_pdsa_for_project pdsa pid edited_pdsa)
  = filter (fun c => project_id c ≠ pid) pdsa ++
    filter (fun c => project_id c ≠ pid) edited_pdsa ∧
  filter (fun c => project_id c = pid) (replace_pdsa_for_project pdsa pid edited_pdsa)
  = filter (fun c => project_id c = pid) edited_pdsa.
Proof.
  unfold replace_pdsa_for_project. rewrite !filter_app. split.
  - f_equal. apply filter_all.
    apply Forall_forall. intros c Hc. apply list_elem_of_filter in Hc. tauto.
  - rewrite (filter_none (fun c => project_id c = pid)); [reflexivity |].
    apply Forall_forall. intros c Hc. apply list_elem_of_filter in Hc. tauto.
Qed.

(** C8 (as stated, it fails): the data editor can return a row that names
    another project.  Project 1 has one cycle; in the editor its
    [project_id] is changed to 2.  After the save the cycles of project 1
    are not the edited rows, and project 2 has gained a cycle. *)
Lemma replace_pdsa_foreign_row :
  let pdsa := [mkPdsa 1 (Str "first") NaN NaN NaN NaN NaN] in
  let newRows := [mkPdsa 2 (Str "first") NaN NaN NaN NaN NaN] in
  let result := replace_pdsa_for_project pdsa 1 newRows in
  filter (fun c => project_id c = 1) result ≠ newRows ∧
  filter (fun c => project_id c ≠ 1) result ≠ filter (fun c => project_id c ≠ 1) pdsa.
Proof. split; vm_compute; discriminate. Qed.

(** C8 (amended): when every row of [newRows] carries the given project
    id, the cycles of that project in the result are exactly [newRows] and
    the cycles of the other projects are those of the old frame, unchanged
    and in order. *)
Theorem replace_pdsa_for_project_spec (pdsa : list PdsaCycle) (pid : Z)
    (newRows : list PdsaCycle) :
  Forall (fun c => project_id c = pid) newRows →
  let result := replace_pdsa_for_project pdsa pid newRows in
  filter (fun c => project_id c = pid) result = newRows ∧
  filter (fun c => project_id c ≠ pid) result
  = filter (fun c => project_id c ≠ pid) pdsa ∧
  filter (fun c => project_id c = pid) pdsa ++ result ≡ₚ pdsa ++ newRows.
Proof.
  intros Hall result.
  destruct (replace_pdsa_split pdsa pid newRows) as [Hother Hown].
  split; [| split].
  - subst result. rewrite Hown. apply filter_all. exact Hall.
  - subst result. rewrite Hother.
    rewrite (filter_none (fun c => project_id c ≠ pid) newRows); [apply app_nil_r |].
    eapply Forall_impl; [exact Hall | simpl; tauto].
  - subst result. unfold replace_pdsa_for_project.
    rewrite app_assoc. f_equiv. apply keep_others_partition.
Qed.

Lemma replace_pdsa_for_project_spec_witness :
  filter (fun c => project_id c = 1)
    (replace_pdsa_for_project
       [mkPdsa 1 (Str "old") NaN NaN NaN NaN NaN; mkPdsa 2 (Str "kept") NaN NaN NaN NaN NaN]
       1 [mkPdsa 1 (Str "new") NaN NaN NaN NaN NaN])
  = [mkPdsa 1 (Str "new") NaN NaN NaN NaN NaN].
Proof.
  apply (replace_pdsa_for_project_spec
           [mkPdsa 1 (Str "old") NaN NaN NaN NaN NaN; mkPdsa 2 (Str "kept") NaN NaN NaN NaN NaN]
           1 [mkPdsa 1 (Str "new") NaN NaN NaN NaN NaN]).
  repeat constructor.
Defined.

(** ** Splitting and trimming *)

Lemma split_comma_cons (s : string) : ∃ piece pieces, split_comma s = piece :: pieces.
Proof.
  destruct s as [|c rest]; simpl; [by eexists _, _ |].
  destruct (Ascii.eqb c comma); [by eexists _, _ |].
  destruct (split_comma rest); by eexists _, _.
Qed.

Lemma join_comma_cons (piece : string) (pieces : list string) :
  pieces ≠ [] →
  join_comma (piece :: pieces) = piece +:+ String comma (join_comma pieces).
Proof. destruct pieces; [congruence | reflexivity]. Qed.

Lemma join_comma_push (c : ascii) (piece : string) (pieces : list string) :
  join_comma (String c piece :: pieces) = String c (join_comma (piece :: pieces)).
Proof. destruct pieces; reflexivity. Qed.

(** Joining the pieces with commas gives the string back. *)
Lemma join_split_comma (s : string) : join_comma (split_comma s) = s.
Proof.
  induction s as [|c rest IH]; [reflexivity |].
  simpl. destruct (Ascii.eqb_spec c comma) as [-> | Hc].
  - destruct (split_comma_cons rest) as (piece & pieces & Hsplit).
    rewrite join_comma_cons by (rewrite Hsplit; discriminate).
    simpl. by rewrite IH.
  - destruct (split_comma_cons rest) as (piece & pieces & Hsplit).
    rewrite Hsplit in *. rewrite join_comma_push. by rewrite IH.
Qed.

(** No piece holds a comma. *)
Lemma split_comma_pieces (s : string) :
  Forall (fun piece => comma ∉ chars piece) (split_comma s).
Proof.
  induction s as [|c rest IH]; simpl.
  - repeat constructor. apply not_elem_of_nil.
  - destruct (Ascii.eqb_spec c comma) as [-> | Hc].
    + constructor; [apply not_elem_of_nil | exact IH].
    + destruct (split_comma rest) as [|piece pieces].
      * repeat constructor.
        apply not_elem_of_cons. split; [congruence | apply not_elem_of_nil].
      * apply Forall_cons in IH as [Hpiece Hpieces].
        constructor; [| exact Hpieces].
        apply not_elem_of_cons. split; [congruence | exact Hpiece].
Qed.

Lemma lstrip_spec (s : string) :
  ∃ l, s = l +:+ lstrip s ∧ all_space l = true ∧
       ∀ c, first_char (lstrip s) = Some c → is_space c = false.
Proof.
  induction s as [|c rest (l & Hl & Hsp & Hfirst)]; simpl.
  - exists "". repeat split. discriminate.
  - destruct (is_space c) eqn:Hc.
    + exists (String c l).
      split; [change (String c rest = String c (l +:+ lstrip rest)); f_equal; exact Hl |].
      split; [| exact Hfirst].
      unfold all_space, chars in *. simpl. by rewrite Hc, Hsp.
    + exists "". repeat split.
      unfold first_char, chars. simpl. by intros ? [= <-].
Qed.

Lemma last_char_cons (c : ascii) (s : string) :
  last_char (String c s) = match last_char s with Some d => Some d | None => Some c end.
Proof.
  unfold last_char, chars.
  change (list_ascii_of_string (String c s)) with (c :: list_ascii_of_string s).
  destruct (list_ascii_of_string s) as [|d l]; [reflexivity |].
  rewrite last_cons. by destruct (last (d :: l)).
Qed.

Lemma last_char_nonempty (c : ascii) (s : string) : is_Some (last_char (String c s)).
Proof. rewrite last_char_cons. destruct (last_char s); eauto. Qed.

Lemma rstrip_spec (s : string) :
  ∃ r, s = rstrip s +:+ r ∧ all_space r = true ∧
       (∀ c, last_char (rstrip s) = Some c → is_space c = false) ∧
       (rstrip s ≠ "" → first_char (rstrip s) = first_char s).
Proof.
  induction s as [|c rest (r & Hr & Hsp & Hlast & Hfirst)].
  - exists "". split; [reflexivity |]. split; [reflexivity |].
    split; [intros c; discriminate | reflexivity].
  - cbn [rstrip]. destruct (rstrip rest) as [|d u].
    + change (rest = r) in Hr. subst r.
      destruct (is_space c) eqn:Hc.
      * exists (String c rest). split; [reflexivity |].
        split; [unfold all_space, chars in *; simpl; by rewrite Hc, Hsp |].
        split; [intros e; discriminate | congruence].
      * exists rest. split; [reflexivity |]. split; [exact Hsp |].
        split; [| reflexivity].
        intros e. unfold last_char, chars. simpl. by intros [= <-].
    + exists r. split; [change (String c rest = String c (String d u +:+ r)); by f_equal |].
      split; [exact Hsp |]. split; [| reflexivity].
      intros e. rewrite last_char_cons.
      destruct (last_char (String d u)) as [x|] eqn:Hx.
      * intros [= <-]. by apply Hlast.
      * destruct (last_char_nonempty d u) as [y Hy]. congruence.
Qed.

(** [strip] removes a run of whitespace at each end and nothing else, and
    what is left has no whitespace at either end. *)
Lemma strip_spec (s : string) :
  ∃ l r, s = l +:+ strip s +:+ r ∧
         all_space l = true ∧ all_space r = true ∧ trimmed (strip s).
Proof.
  destruct (lstrip_spec s) as (l & Hl & Hlsp & Hfirst).
  destruct (rstrip_spec (lstrip s)) as (r & Hr & Hrsp & Hlast & Hkeep).
  exists l, r. unfold strip. split; [by rewrite <- Hr |].
  split; [exact Hlsp | split; [exact Hrsp |]].
  split; [| exact Hlast].
  intros c Hc. apply Hfirst. rewrite <- Hkeep; [exact Hc |].
  intros Hempty. rewrite Hempty in Hc. discriminate.
Qed.

(** ** The set of tags *)

Lemma add_tags_elem (tag_set : gset string) (tag_list t : string) :
  t ∈ add_tags tag_set tag_list ↔
  t ∈ tag_set ∨ (t ≠ "" ∧ ∃ piece, piece ∈ split_comma tag_list ∧ t = strip piece).
Proof.
  unfold add_tags. revert tag_set.
  induction (split_comma tag_list) as [|piece pieces IH]; intros tag_set; simpl.
  - split; [by left | intros [H | (_ & piece & Hin & _)]; [exact H |]].
    by apply elem_of_nil in Hin.
  - rewrite IH. destruct (decide (strip piece = "")) as [Hempty | Hfull].
    + split.
      * intros [H | (Hne & q & Hq & ->)]; [by left |].
        right. split; [exact Hne |]. exists q. split; [by right | reflexivity].
      * intros [H | (Hne & q & Hq & ->)]; [by left |].
        apply elem_of_cons in Hq as [-> | Hq]; [congruence |].
        right. split; [exact Hne |]. by exists q.
    + split.
      * intros [H | (Hne & q & Hq & ->)].
        -- apply elem_of_union in H as [H | H]; [| by left].
           apply elem_of_singleton in H as ->.
           right. split; [exact Hfull |]. exists piece. split; [left | reflexivity].
        -- right. split; [exact Hne |]. exists q. split; [by right | reflexivity].
      * intros [H | (Hne & q & Hq & ->)].
        -- left. apply elem_of_union. by right.
        -- apply elem_of_cons in Hq as [-> | Hq].
           ++ left. apply elem_of_union. left. by apply elem_of_singleton.
           ++ right. split; [exact Hne |]. by exists q.
Qed.

Lemma fold_add_tags_elem (tag_set : gset string) (tag_lists : list string) (t : string) :
  t ∈ foldl add_tags tag_set tag_lists ↔
  t ∈ tag_set ∨
  (t ≠ "" ∧ ∃ tag_list piece,
      tag_list ∈ tag_lists ∧ piece ∈ split_comma tag_list ∧ t = strip piece).
Proof.
  revert tag_set. induction tag_lists as [|tl tls IH]; intros tag_set; simpl.
  - split; [by left | intros [H | (_ & tl & _ & Hin & _)]; [exact H |]].
    by apply elem_of_nil in Hin.
  - rewrite IH, add_tags_elem. split.
    + intros [[H | (Hne & q & Hq & ->)] | (Hne & tl' & q & Htl & Hq & ->)].
      * by left.
      * right. split; [exact Hne |]. exists tl, q. split; [left | by split].
      * right. split; [exact Hne |]. exists tl', q. split; [by right | by split].
    + intros [H | (Hne & tl' & q & Htl & Hq & ->)]; [by do 2 left |].
      apply elem_of_cons in Htl as [-> | Htl].
      * left. right. split; [exact Hne |]. by exists q.
      * right. split; [exact Hne |]. by exists tl', q.
Qed.

(** C5: a label is in [distinct_tags] exactly when it is a non-empty
    trimmed piece of the comma split of some project's tags (a missing tags
    value counting as the empty text).  The split is the one that joins back
    to the text with no comma inside a piece, the trimming removes
    whitespace at both ends only, and tags [a, b] and [b, c] give the set
    of [a], [b] and [c]. *)
Theorem distinct_tags_spec :
  (∀ (projects : list Project) (t : string),
     t ∈ distinct_tags projects ↔
     t ≠ "" ∧ ∃ p piece,
       p ∈ projects ∧ piece ∈ split_comma (fillna_empty (tags p)) ∧ t = strip piece) ∧
  (∀ s : string,
     join_comma (split_comma s) = s ∧
     Forall (fun piece => comma ∉ chars piece) (split_comma s)) ∧
  (∀ s : string,
     ∃ l r, s = l +:+ strip s +:+ r ∧
            all_space l = true ∧ all_space r = true ∧ trimmed (strip s)) ∧
  distinct_tags
    [save_form (mkForm "" "" "" "" "" "" "" "" "" "a, b") example;
     save_form (mkForm "" "" "" "" "" "" "" "" "" "b, c") example]
  = {[ "a"; "b"; "c" ]}.
Proof.
  split; [| split; [| split]].
  - intros projects t. unfold distinct_tags. rewrite fold_add_tags_elem. split.
    + intros [H | (Hne & tl & q & Htl & Hq & ->)]; [by apply elem_of_empty in H |].
      apply list_elem_of_fmap in Htl as (p & -> & Hp).
      split; [exact Hne |]. by exists p, q.
    + intros (Hne & p & q & Hp & Hq & ->). right. split; [exact Hne |].
      exists (fillna_empty (tags p)), q. split; [| by split].
      apply list_elem_of_fmap. by exists p.
  - intros s. split; [apply join_split_comma | apply split_comma_pieces].
  - apply strip_spec.
  - apply set_eq. intros t.
    rewrite !elem_of_union, !elem_of_singleton.
    unfold distinct_tags. rewrite fold_add_tags_elem. split.
    + intros [H | (Hne & tl & q & Htl & Hq & ->)]; [by apply elem_of_empty in H |].
      simpl in Htl.
      repeat (apply elem_of_cons in Htl as [-> | Htl];
              [vm_compute in Hq;
               repeat (apply elem_of_cons in Hq as [-> | Hq]; [vm_compute; tauto |]);
               by apply elem_of_nil in Hq |]).
      by apply elem_of_nil in Htl.
    + intros [[-> | ->] | ->]; right; (split; [discriminate |]).
      * exists "a, b", "a". split; [left |]. split; [left | reflexivity].
      * exists "a, b", " b". split; [left |]. split; [right; left | reflexivity].
      * exists "b, c", " c". split; [right; left |]. split; [right; left | reflexivity].
Qed.

(** ** Patterns *)

Lemma re_compile_literal (pat : string) :
  literal_pattern pat = true → re_compile pat = Ok (Lit <$> chars pat).
Proof.
  unfold literal_pattern, chars. induction pat as [|c rest IH]; [reflexivity |].
  simpl. intros [Hc Hrest]%andb_prop. rewrite (IH Hrest).
  destruct (Ascii.eqb_spec c "."%char) as [-> | _]; [discriminate |].
  by destruct (is_special c).
Qed.


(** A literal pattern matches at the start of [s] when [s] starts with it. *)
Lemma re_match_literal (pat s : string) :
  re_match (Lit <$> chars pat) s = true ↔ ∃ after, s = pat +:+ after.
Proof.
  revert s. unfold chars. induction pat as [|c rest IH]; intros s.
  - split; [intros _; by exists s | reflexivity].
  - change (list_ascii_of_string (String c rest)) with (c :: list_ascii_of_string rest).
    rewrite fmap_cons. destruct s as [|d s']; simpl.
    + split; [discriminate | intros [after Ha]; discriminate].
    + rewrite andb_true_iff, IH. split.
      * intros [->%Ascii.eqb_eq [after ->]]. by exists after.
      * intros [after [= -> ->]]. split; [apply Ascii.eqb_refl | by exists after].
Qed.

(** Searching a literal pattern is Python's [pat in s]. *)
Lemma re_search_literal (pat s : string) :
  re_search (Lit <$> chars pat) s = true ↔ substring_of pat s.
Proof.
  unfold substring_of. induction s as [|d s' IH].
  - simpl. rewrite orb_false_r, re_match_literal. split.
    + intros [after Ha]. by exists "", after.
    + intros (before & after & Hs). destruct before; [by exists after | discriminate].
  - cbn [re_search]. rewrite orb_true_iff, IH, re_match_literal. split.
    + intros [[after Ha] | (before & after & Hs)].
      * by exists "", after.
      * exists (String d before), after. simpl. by rewrite Hs.
    + intros (before & after & Hs). destruct before as [|b before].
      * left. by exists after.
      * right. injection Hs as _ Hs. by exists before, after.
Qed.

(** ** Filtering *)

Lemma str_contains_literal (pat : string) (c : cell) :
  str_contains (Lit <$> chars pat) c = true ↔ ∃ s, c = Str s ∧ substring_of pat s.
Proof.
  destruct c as [|s]; simpl.
  - split; [discriminate | intros (s & Hs & _); discriminate].
  - rewrite re_search_literal. split.
    + intros H. by exists s.
    + by intros (s' & [= <-] & H).
Qed.

(** On a frame whose tags column is text, a tag selector without special
    characters selects by substring: the result is the sub-frame, in the
    original order, of the rows that match the status exactly and hold the
    tag as a substring of their tags. *)
Lemma filter_projects_literal_tag (projects : list Project)
    (selected_status selected_tag : string) :
  tags_is_object projects = true →
  literal_pattern selected_tag = true →
  ∃ filtered,
    filter_projects projects selected_status selected_tag = Ok filtered ∧
    filtered `sublist_of` projects ∧
    ∀ p, p ∈ filtered ↔
         p ∈ projects ∧ status_selected selected_status p ∧ tag_selected selected_tag p.
Proof.
  intros Hobj Hlit. unfold filter_projects, status_selected, tag_selected.
  rewrite Hobj, (re_compile_literal _ Hlit).
  destruct (decide (selected_status ≠ "All")) as [Hs | Hs%dec_stable];
    destruct (decide (selected_tag ≠ "All")) as [Ht | Ht%dec_stable];
    eexists; (split; [reflexivity |]); unfold filter_status.
  - split; [etrans; apply sublist_filter |]. intros p.
    rewrite !list_elem_of_filter, Is_true_true, str_contains_literal. tauto.
  - split; [apply sublist_filter |]. intros p.
    rewrite list_elem_of_filter. tauto.
  - split; [apply sublist_filter |]. intros p.
    rewrite list_elem_of_filter, Is_true_true, str_contains_literal. tauto.
  - split; [reflexivity |]. intros p. tauto.
Qed.

Lemma not_substring_a_dot_c : ¬ substring_of "a.c" "abc".
Proof.
  intros (before & after & Hs).
  do 3 (destruct before as [|? before]; simpl in Hs;
        [discriminate | injection Hs as _ Hs]).
  destruct before; discriminate.
Qed.

(** C1 (the code at the failing input): the tag selector is compiled as a
    regular expression, so the tag [a.c] of the first project also selects
    the second project, whose tags [abc] do not contain [a.c]. *)
Theorem filter_projects_reads_tag_as_regex :
  let tagged t := save_form (mkForm "" "" "" "In Progress" "" "" "" "" "" t) example in
  filter_projects [tagged "a.c"; tagged "abc"] "All" "a.c"
  = Ok [tagged "a.c"; tagged "abc"] ∧
  "a.c" ∈ distinct_tags [tagged "a.c"; tagged "abc"] ∧
  ¬ tag_selected "a.c" (tagged "abc").
Proof.
  split; [reflexivity | split].
  - apply (bool_decide_unpack _). vm_compute. exact I.
  - intros [H | (s & [= <-] & H)]; [discriminate |].
    exact (not_substring_a_dot_c H).
Qed.




(** ** Storage set-up *)

(** C7: [ensure_data_dir] leaves a folder that has both files as it is;
    more generally it never replaces a file that exists; and running it a
    second time, from whatever state the first run left, changes nothing and
    ends as the first run did. *)
Theorem ensure_data_dir_idempotent :
  (∀ p c : table,
     ensure_data_dir (Directory (Some p) (Some c))
     = (Ok (), Directory (Some p) (Some c))) ∧
  (∀ (p : table) (c : option table),
     ∃ c', ensure_data_dir (Directory (Some p) c) = (Ok (), Directory (Some p) (Some c'))) ∧
  (∀ (p : option table) (c : table),
     ∃ p', ensure_data_dir (Directory p (Some c)) = (Ok (), Directory (Some p') (Some c))) ∧
  (∀ s : storage,
     ensure_data_dir (snd (ensure_data_dir s)) = ensure_data_dir s).
Proof.
  split; [| split; [| split]].
  - reflexivity.
  - intros p [c|]; eexists; reflexivity.
  - intros [p|] c; eexists; reflexivity.
  - intros [| | [p|] [c|]]; reflexivity.
Qed.

(** ** Import *)

Lemma bind_ok {S A B} (m : st S A) (k : A → st S B) (s s' : S) (a : A) :
  m s = (Ok a, s') → (m ≫= k) s = k a s'.
Proof. unfold mbind, st_bind. by intros ->. Qed.

Lemma bind_raises {S A B} (m : st S A) (k : A → st S B) (s s' : S) (e : exn) :
  m s = (Raises e, s') → (m ≫= k) s = (Raises e, s').
Proof. unfold mbind, st_bind. by intros ->. Qed.

(** C6: when the tokenizer rejects the uploaded bytes, either import raises
    that error and leaves the session as it was: the variables [projects]
    and [pdsa] and both files.  In [main], where the import follows the
    load, the session is then the loaded one. *)
Theorem import_malformed_keeps_session (tokenize : string → outcome table)
    (bytes : string) :
  tokenize bytes = Raises ParserError →
  (∀ s, import_projects tokenize (Some bytes) s = (Raises ParserError, s)) ∧
  (∀ s, import_pdsa tokenize (Some bytes) s = (Raises ParserError, s)) ∧
  (∀ s ps cs d other,
     load_data (disk s) = (Ok (ps, cs), d) →
     main_import tokenize (Some bytes) other s = (Raises ParserError, mkSession d ps cs) ∧
     main_import tokenize None (Some bytes) s = (Raises ParserError, mkSession d ps cs)).
Proof.
  intros Hbad.
  assert (Hp : ∀ s, import_projects tokenize (Some bytes) s = (Raises ParserError, s)).
  { intros s. unfold import_projects, mbind, st_bind, pure. simpl. by rewrite Hbad. }
  assert (Hc : ∀ s, import_pdsa tokenize (Some bytes) s = (Raises ParserError, s)).
  { intros s. unfold import_pdsa, mbind, st_bind, pure. simpl. by rewrite Hbad. }
  split; [exact Hp | split; [exact Hc |]].
  intros s ps cs d other Hload.
  assert (Hl : on_disk load_data s = (Ok (ps, cs), mkSession d (projects_var s) (pdsa_var s))).
  { unfold on_disk. by rewrite Hload. }
  unfold main_import. split.
  - rewrite (bind_ok _ _ _ _ _ Hl). cbn beta.
    erewrite bind_ok by reflexivity. cbn beta.
    erewrite bind_ok by reflexivity. cbn beta.
    apply bind_raises, Hp.
  - rewrite (bind_ok _ _ _ _ _ Hl). cbn beta.
    erewrite bind_ok by reflexivity. cbn beta.
    erewrite bind_ok by reflexivity. cbn beta.
    erewrite bind_ok by reflexivity. apply Hc.
Qed.

Lemma import_malformed_keeps_session_witness :
  main_import empty_stream_tokenizer (Some "") None (mkSession Absent [] [])
  = (Raises ParserError,
     mkSession (snd (ensure_data_dir Absent)) [example] []).
Proof.
  destruct (import_malformed_keeps_session empty_stream_tokenizer "" eq_refl)
    as (_ & _ & Hmain).
  destruct (Hmain (mkSession Absent [] []) [example] []
              (snd (ensure_data_dir Absent)) None eq_refl) as [H _].
  exact H.
Defined.

(** ** Round trip through a CSV file *)

Lemma mapM_ok {A B} (f : A → outcome B) (g : A → B) (l : list A) :
  Forall (fun x => f x = Ok (g x)) l → mapM f l = Ok (g <$> l).
Proof.
  induction 1 as [|x l Hx _ IH]; [reflexivity |].
  simpl. unfold mbind, outcome_bind. rewrite Hx.
  change (mapM f l) with (mapM f l). by rewrite IH.
Qed.

Lemma write_int_nonnil (z : Z) :
  Z.to_int z ≠ Decimal.Pos Decimal.Nil ∧ Z.to_int z ≠ Decimal.Neg Decimal.Nil.
Proof.
  destruct z as [|p|p]; simpl; split; try discriminate.
  - intros [= H]. by apply DecimalPos.Unsigned.to_uint_nonnil in H.
  - intros [= H]. by apply DecimalPos.Unsigned.to_uint_nonnil in H.
Qed.

(** An int64 written in decimal is read as itself. *)
Lemma read_write_int (z : Z) : in_int64 z → read_int (write_int z) = Ok z.
Proof.
  intros Hz. unfold read_int, write_int.
  destruct (write_int_nonnil z) as [Hp Hn].
  rewrite (NilZero.isi _ Hp Hn), DecimalZ.of_to.
  by rewrite bool_decide_eq_true_2.
Qed.

Lemma write_text_storable (c : cell) :
  storable c = true → write_text c = Ok (fillna_empty c).
Proof.
  destruct c as [|s]; [reflexivity |]. simpl.
  intros [[Hcr _]%andb_prop _]%andb_prop.
  by destruct (has_unsafe_char s).
Qed.

Lemma storable_not_None (c : cell) :
  storable c = true → bool_decide (fillna_empty c = "None") = false.
Proof.
  destruct c as [|s]; [reflexivity |]. simpl.
  intros [[_ Hn]%andb_prop _]%andb_prop.
  by destruct (bool_decide (s = "None")).
Qed.

Lemma storable_text_or_na (c : cell) :
  storable c = true →
  is_na (fillna_empty c) = true ∨ surely_text (fillna_empty c) = true.
Proof.
  destruct c as [|s]; [by left |]. simpl.
  intros [_ H]%andb_prop. by apply orb_prop in H.
Qed.

(** A column of storable cells is read back cell by cell. *)
Lemma read_text_column_storable (cs : list cell) :
  Forall (fun c => storable c = true) cs →
  read_text_column (fillna_empty <$> cs) = Ok (read_back <$> cs).
Proof.
  intros Hst. unfold read_text_column.
  replace (existsb _ (fillna_empty <$> cs)) with false; cycle 1.
  { symmetry. induction Hst as [|c cs Hc _ IH]; [reflexivity |].
    simpl. by rewrite (storable_not_None c Hc). }
  destruct (forallb is_na (fillna_empty <$> cs)) eqn:Hall.
  - f_equal. rewrite <- list_fmap_compose.
    clear Hst. induction cs as [|c cs IH]; [reflexivity |].
    simpl in Hall. apply andb_prop in Hall as [Hc Hcs].
    rewrite !fmap_cons. f_equal; [| by apply IH].
    simpl. unfold read_back, parse_cell. by rewrite Hc.
  - assert (Hex : existsb surely_text (fillna_empty <$> cs) = true).
    { induction Hst as [|c cs Hc _ IH]; [discriminate |].
      rewrite fmap_cons in *. cbn [forallb existsb] in *.
      destruct (storable_text_or_na c Hc) as [Hna | Htxt].
      - rewrite Hna in Hall. rewrite (IH Hall). apply orb_true_r.
      - by rewrite Htxt. }
    rewrite Hex. by rewrite <- list_fmap_compose.
Qed.

Lemma mapM_fmap_ok {A B C} (f : B → outcome C) (h : A → B) (g : A → C) (l : list A) :
  Forall (fun x => f (h x) = Ok (g x)) l → mapM f (h <$> l) = Ok (g <$> l).
Proof.
  induction 1 as [|x l Hx _ IH]; [reflexivity |].
  rewrite !fmap_cons. cbn [mapM]. rewrite Hx, IH. reflexivity.
Qed.

Lemma nth_fmap {A B} (f : A → B) (l : list A) (n : nat) (d : A) :
  nth n (f <$> l) (f d) = f (nth n l d).
Proof.
  revert n. induction l as [|x l IH]; intros [|n]; simpl; try reflexivity.
  apply IH.
Qed.

Lemma fmap_nth_seq {A} (l : list A) (d : A) :
  (fun j => nth j l d) <$> seq 0 (length l) = l.
Proof.
  induction l as [|x l IH]; [reflexivity |].
  cbn [length seq]. rewrite fmap_cons. f_equal.
  rewrite <- fmap_S_seq, <- list_fmap_compose. exact IH.
Qed.

Lemma write_row_storable (r : Z * list cell) :
  storable_row r → write_row r = Ok (row_fields r).
Proof.
  intros [_ Hcells]. unfold write_row, row_fields.
  rewrite (mapM_ok write_text fillna_empty); [reflexivity |].
  eapply Forall_impl; [exact Hcells | apply write_text_storable].
Qed.

Lemma to_csv_storable (columns : list string) (frame : list (Z * list cell)) :
  Forall storable_row frame →
  to_csv columns frame = Ok (mkTable columns (row_fields <$> frame)).
Proof.
  intros Hst. unfold to_csv.
  rewrite (mapM_ok write_row row_fields); [reflexivity |].
  eapply Forall_impl; [exact Hst | apply write_row_storable].
Qed.

Lemma column_key (frame : list (Z * list cell)) :
  column 0 (row_fields <$> frame) = (fun r => write_int r.1) <$> frame.
Proof. unfold column. by rewrite <- list_fmap_compose. Qed.

Lemma column_text (j : nat) (frame : list (Z * list cell)) :
  column (S j) (row_fields <$> frame)
  = fillna_empty <$> ((fun r => nth j r.2 NaN) <$> frame).
Proof.
  unfold column. rewrite <- !list_fmap_compose.
  apply list_fmap_ext. intros _ r _. simpl.
  apply (nth_fmap fillna_empty r.2 j NaN).
Qed.

Lemma nth_storable (j : nat) (r : Z * list cell) :
  storable_row r → storable (nth j r.2 NaN) = true.
Proof.
  intros [_ Hcells]. destruct (nth_lookup_or_length r.2 j NaN) as [Hj | Hj].
  - rewrite Forall_forall in Hcells. apply Hcells.
    eapply list_elem_of_lookup_2, Hj.
  - by rewrite nth_overflow.
Qed.

(** What was written from a frame of storable rows of the right width is
    read as the frame of the cells read back. *)
Lemma read_csv_written (columns : list string) (frame : list (Z * list cell)) :
  columns ≠ [] →
  Forall storable_row frame →
  Forall (fun r => S (length r.2) = length columns) frame →
  read_csv columns (mkTable columns (row_fields <$> frame))
  = Ok (read_back_row <$> frame).
Proof.
  intros Hcols Hst Hwidth. unfold read_csv. cbn [header rows].
  rewrite bool_decide_eq_true_2 by reflexivity. cbn [andb].
  replace (forallb _ (row_fields <$> frame)) with true; cycle 1.
  { symmetry. apply forallb_forall. intros fields Hin.
    apply list_elem_of_In, list_elem_of_fmap in Hin as (r & -> & Hr).
    rewrite Forall_forall in Hwidth. specialize (Hwidth r Hr).
    apply Nat.eqb_eq. unfold row_fields. cbn [length].
    by rewrite length_fmap. }
  rewrite column_key. unfold read_int_column.
  rewrite (mapM_fmap_ok read_int _ fst); cycle 1.
  { eapply Forall_impl; [exact Hst |]. intros r [Hr _]. by apply read_write_int. }
  cbn [mbind outcome_bind].
  destruct columns as [|c0 columns]; [congruence |].
  cbn [length]. rewrite Nat.sub_succ, Nat.sub_0_r.
  rewrite <- fmap_S_seq.
  rewrite (mapM_fmap_ok _ S
             (fun j => read_back <$> ((fun r => nth j r.2 NaN) <$> frame))); cycle 1.
  { apply Forall_forall. intros j _. rewrite column_text.
    apply read_text_column_storable.
    apply Forall_fmap, Forall_forall. intros r Hr. simpl.
    apply nth_storable. rewrite Forall_forall in Hst. by apply Hst. }
  cbn [mbind outcome_bind]. f_equal. rewrite imap_fmap.
  rewrite <- (imap_const read_back_row). apply imap_ext.
  intros i r Hi. unfold compose, const, read_back_row. f_equal.
  unfold row_cells. rewrite <- list_fmap_compose.
  rewrite Forall_forall in Hwidth.
  assert (Hlen : length columns = length r.2).
  { specialize (Hwidth r (list_elem_of_lookup_2 _ _ _ Hi)). simpl in Hwidth. lia. }
  rewrite Hlen.
  rewrite <- (fmap_nth_seq r.2 NaN) at 2. rewrite <- list_fmap_compose.
  apply list_fmap_ext. intros _ j _. simpl.
  erewrite nth_lookup_Some; [reflexivity |].
  rewrite !list_lookup_fmap, Hi. reflexivity.
Qed.



Lemma project_of_cells_inv (p : Project) : project_of_cells (project_cells p) = p.
Proof. by destruct p. Qed.

Lemma pdsa_of_cells_inv (c : PdsaCycle) : pdsa_of_cells (pdsa_cells c) = c.
Proof. by destruct c. Qed.


(** Saving two frames of storable rows into the data folder and loading
    them gives the frames of the cells read back, and leaves the files as
    saved. *)
Lemma save_load (projects : list Project) (pdsa : list PdsaCycle)
    (a b : option table) :
  Forall (fun p => storable_row (project_cells p)) projects →
  Forall (fun c => storable_row (pdsa_cells c)) pdsa →
  ∃ d, save_data projects pdsa (Directory a b) = (Ok (), d) ∧
       load_data d
       = (Ok (read_back_project <$> projects, read_back_cycle <$> pdsa), d).
Proof.
  intros Hp Hc.
  pose proof (to_csv_storable projects_columns (project_cells <$> projects)) as Hwp.
  pose proof (to_csv_storable pdsa_columns (pdsa_cells <$> pdsa)) as Hwc.
  rewrite Forall_fmap in Hwp. rewrite Forall_fmap in Hwc.
  specialize (Hwp Hp). specialize (Hwc Hc).
  eexists. split.
  - unfold save_data, projects_to_csv, pdsa_to_csv, pure, mbind, st_bind.
    rewrite Hwp, Hwc. reflexivity.
  - unfold load_data, ensure_data_dir, exists_, read_file, pure, mbind, st_bind, mret, st_ret.
    cbn [path_exists negb bool_decide decide_rel is_Some_dec].
    unfold read_projects, read_pdsa.
    rewrite !read_csv_written.
    + cbn [mbind outcome_bind]. by rewrite <- !list_fmap_compose.
    + discriminate.
    + by rewrite Forall_fmap.
    + rewrite Forall_fmap. by apply Forall_true.
    + discriminate.
    + by rewrite Forall_fmap.
    + rewrite Forall_fmap. by apply Forall_true.
Qed.




(** * Further properties of the data layer *)

(** ** Storage *)

Lemma bind_unmodelled {S A B} (m : st S A) (k : A → st S B) (s s' : S) :
  m s = (Unmodelled, s') → (m ≫= k) s = (Unmodelled, s').
Proof. unfold mbind, st_bind. by intros ->. Qed.


(** Whatever it returns, [load_data] has no effect on the data folder
    beyond that of [ensure_data_dir]: reading never writes, also when a
    file cannot be read as a frame. *)
Theorem load_data_only_ensures (s : storage) :
  snd (load_data s) = snd (ensure_data_dir s).
Proof.
  unfold load_data.
  destruct s as [| | [p|] [c|]]; try reflexivity;
    (erewrite bind_ok by reflexivity); cbn beta;
    (erewrite bind_ok by reflexivity); cbn beta.
  - destruct (read_projects p) as [ps| |];
      [| by erewrite bind_raises | by erewrite bind_unmodelled].
    erewrite bind_ok by reflexivity. cbn beta.
    erewrite bind_ok by reflexivity. cbn beta.
    destruct (read_pdsa c) as [cs| |];
      [| by erewrite bind_raises | by erewrite bind_unmodelled].
    by erewrite bind_ok.
  - destruct (read_projects p) as [ps| |];
      [| by erewrite bind_raises | by erewrite bind_unmodelled].
    erewrite bind_ok by reflexivity. reflexivity.
  - erewrite bind_ok by reflexivity. cbn beta.
    erewrite bind_ok by reflexivity. cbn beta.
    destruct (read_pdsa c) as [cs| |];
      [| by erewrite bind_raises | by erewrite bind_unmodelled].
    by erewrite bind_ok.
Qed.

(** [save_data] does not create the data folder: when [data] is missing or
    is not a folder nothing is written and the save does not succeed; for
    frames that can be written the outcome is [OSError]. *)
Theorem save_data_needs_folder (projects : list Project) (pdsa : list PdsaCycle)
    (s : storage) :
  s = Absent ∨ s = NotADirectory →
  snd (save_data projects pdsa s) = s ∧
  fst (save_data projects pdsa s) ≠ Ok () ∧
  (Forall (fun p => storable_row (project_cells p)) projects →
   fst (save_data projects pdsa s) = Raises OSError).
Proof.
  intros Hcases.
  unfold save_data, projects_to_csv, mbind, st_bind, pure.
  split; [| split].
  - destruct (to_csv projects_columns (project_cells <$> projects));
      destruct Hcases as [-> | ->]; reflexivity.
  - destruct (to_csv projects_columns (project_cells <$> projects));
      destruct Hcases as [-> | ->]; discriminate.
  - intros Hst. rewrite to_csv_storable by (by rewrite Forall_fmap).
    destruct Hcases as [-> | ->]; reflexivity.
Qed.

Lemma save_data_needs_folder_witness :
  save_data [example] [] Absent = (Raises OSError, Absent).
Proof.
  destruct (save_data_needs_folder [example] [] Absent (or_introl eq_refl))
    as (Hs & _ & Hraise).
  rewrite (surjective_pairing (save_data [example] [] Absent)).
  rewrite Hs, Hraise; [reflexivity |].
  repeat constructor; vm_compute; congruence.
Defined.

Lemma save_data_ok (projects : list Project) (pdsa : list PdsaCycle)
    (a b : option table) (d : storage) :
  save_data projects pdsa (Directory a b) = (Ok (), d) →
  ∃ tp tc, d = Directory (Some tp) (Some tc) ∧
           to_csv projects_columns (project_cells <$> projects) = Ok tp ∧
           to_csv pdsa_columns (pdsa_cells <$> pdsa) = Ok tc.
Proof.
  unfold save_data, projects_to_csv, pdsa_to_csv, mbind, st_bind, pure.
  destruct (to_csv projects_columns (project_cells <$> projects)) as [tp| |];
    [| discriminate..].
  cbn. destruct (to_csv pdsa_columns (pdsa_cells <$> pdsa)) as [tc| |];
    [| discriminate..].
  cbn. intros [= <-]. by exists tp, tc.
Qed.

(** A save that succeeds replaces both files whole: the folder afterwards
    holds what the two frames serialize to, whatever the two files held
    before, or whether they existed. *)
Theorem save_data_overwrites (projects : list Project) (pdsa : list PdsaCycle)
    (a b a' b' : option table) (d : storage) :
  save_data projects pdsa (Directory a b) = (Ok (), d) →
  save_data projects pdsa (Directory a' b') = (Ok (), d).
Proof.
  intros Hsave.
  destruct (save_data_ok _ _ _ _ _ Hsave) as (tp & tc & -> & Hp & Hc).
  unfold save_data, projects_to_csv, pdsa_to_csv, mbind, st_bind, pure.
  by rewrite Hp, Hc.
Qed.

Lemma save_data_overwrites_witness :
  save_data [example] [] (Directory (Some (mkTable [] [])) None)
  = (Ok (), snd (save_data [example] [] (Directory None None))).
Proof.
  pose proof (save_data_overwrites [example] [] None None
              (Some (mkTable [] [])) None
              (snd (save_data [example] [] (Directory None None))) eq_refl)
    as H.
  exact H.
Defined.

Lemma read_back_idem (c : cell) : read_back (read_back c) = read_back c.
Proof.
  destruct c as [|s]; [reflexivity |].
  unfold read_back, parse_cell. cbn [fillna_empty].
  destruct (is_na s) eqn:Hs; [reflexivity |].
  cbn [fillna_empty]. by rewrite Hs.
Qed.

Lemma storable_read_back (c : cell) :
  storable c = true → storable (read_back c) = true.
Proof.
  destruct c as [|s]; [reflexivity |].
  unfold read_back, parse_cell. cbn [fillna_empty].
  by destruct (is_na s).
Qed.

Lemma storable_read_back_row (r : Z * list cell) :
  storable_row r → storable_row (read_back_row r).
Proof.
  intros [Hz Hcells]. split; [exact Hz |]. cbn [read_back_row snd].
  apply Forall_fmap. eapply Forall_impl; [exact Hcells |].
  intros c. apply storable_read_back.
Qed.

Lemma project_cells_read_back (p : Project) :
  project_cells (read_back_project p) = read_back_row (project_cells p).
Proof. by destruct p. Qed.

Lemma pdsa_cells_read_back (c : PdsaCycle) :
  pdsa_cells (read_back_cycle c) = read_back_row (pdsa_cells c).
Proof. by destruct c. Qed.

Lemma read_back_row_idem (r : Z * list cell) :
  read_back_row (read_back_row r) = read_back_row r.
Proof.
  unfold read_back_row. cbn [fst snd]. f_equal.
  rewrite <- list_fmap_compose. apply list_fmap_ext.
  intros _ c _. apply read_back_idem.
Qed.

(** What has been loaded from the files is stable: for frames the model
    can follow, saving the loaded frames and loading again gives the same
    frames.  The loss of a round trip (an empty text read as a missing
    value) happens once. *)
Theorem load_save_load (projects : list Project) (pdsa : list PdsaCycle)
    (a b : option table) :
  Forall (fun p => storable_row (project_cells p)) projects →
  Forall (fun c => storable_row (pdsa_cells c)) pdsa →
  ∃ d1 d2 loaded_projects loaded_pdsa,
    save_data projects pdsa (Directory a b) = (Ok (), d1) ∧
    load_data d1 = (Ok (loaded_projects, loaded_pdsa), d1) ∧
    save_data loaded_projects loaded_pdsa d1 = (Ok (), d2) ∧
    load_data d2 = (Ok (loaded_projects, loaded_pdsa), d2).
Proof.
  intros Hp Hc.
  destruct (save_load projects pdsa a b Hp Hc) as (d1 & Hsave1 & Hload1).
  destruct (save_data_ok _ _ _ _ _ Hsave1) as (tp & tc & -> & _).
  destruct (save_load (read_back_project <$> projects) (read_back_cycle <$> pdsa)
              (Some tp) (Some tc)) as (d2 & Hsave2 & Hload2).
  - apply Forall_fmap. eapply Forall_impl; [exact Hp |].
    intros p Hrow. cbn. rewrite project_cells_read_back.
    by apply storable_read_back_row.
  - apply Forall_fmap. eapply Forall_impl; [exact Hc |].
    intros c Hrow. cbn. rewrite pdsa_cells_read_back.
    by apply storable_read_back_row.
  - exists (Directory (Some tp) (Some tc)), d2. eexists _, _.
    split; [exact Hsave1 |]. split; [exact Hload1 |]. split; [exact Hsave2 |].
    rewrite Hload2. do 2 f_equal. f_equal.
    + rewrite <- list_fmap_compose. apply list_fmap_ext. intros _ p _. cbn.
      unfold read_back_project at 1. rewrite project_cells_read_back.
      by rewrite read_back_row_idem.
    + rewrite <- list_fmap_compose. apply list_fmap_ext. intros _ c _. cbn.
      unfold read_back_cycle at 1. rewrite pdsa_cells_read_back.
      by rewrite read_back_row_idem.
Qed.

Lemma load_save_load_witness :
  ∃ d1 d2 loaded_projects loaded_pdsa,
    save_data (add_project [example] "2024-05-06") [] (Directory None None) = (Ok (), d1) ∧
    load_data d1 = (Ok (loaded_projects, loaded_pdsa), d1) ∧
    save_data loaded_projects loaded_pdsa d1 = (Ok (), d2) ∧
    load_data d2 = (Ok (loaded_projects, loaded_pdsa), d2).
Proof.
  apply (load_save_load (add_project [example] "2024-05-06") [] None None).
  - repeat constructor; vm_compute; congruence.
  - constructor.
Defined.

(** ** Tags *)


Lemma chars_append (s1 s2 : string) : chars (s1 +:+ s2) = chars s1 ++ chars s2.
Proof.
  unfold chars. induction s1 as [|c s1 IH]; [reflexivity |].
  change (c :: list_ascii_of_string (s1 +:+ s2)
          = c :: (list_ascii_of_string s1 ++ list_ascii_of_string s2)).
  f_equal. exact IH.
Qed.




Lemma distinct_tags_elem (projects : list Project) (t : string) :
  t ∈ distinct_tags projects ↔
  t ≠ "" ∧ ∃ p piece,
    p ∈ projects ∧ piece ∈ split_comma (fillna_empty (tags p)) ∧ t = strip piece.
Proof.
  unfold distinct_tags. rewrite fold_add_tags_elem. split.
  - intros [H | (Hne & tl & q & Htl & Hq & ->)]; [by apply elem_of_empty in H |].
    apply list_elem_of_fmap in Htl as (p & -> & Hp).
    split; [exact Hne |]. by exists p, q.
  - intros (Hne & p & q & Hp & Hq & ->). right. split; [exact Hne |].
    exists (fillna_empty (tags p)), q. split; [| by split].
    apply list_elem_of_fmap. by exists p.
Qed.

(** Every label in the tag set is usable as a label: it is not empty, it
    has no whitespace at either end and it holds no comma. *)
Theorem distinct_tags_labels_clean (projects : list Project) (t : string) :
  t ∈ distinct_tags projects →
  t ≠ "" ∧ trimmed t ∧ comma ∉ chars t.
Proof.
  intros (Hne & p & piece & _ & Hpiece & ->)%distinct_tags_elem.
  split; [exact Hne |].
  destruct (strip_spec piece) as (l & r & Hs & _ & _ & Htrim).
  split; [exact Htrim |].
  pose proof (split_comma_pieces (fillna_empty (tags p))) as Hall.
  rewrite Forall_forall in Hall. specialize (Hall piece Hpiece).
  intros Hin. apply Hall. rewrite Hs, !chars_append.
  apply elem_of_app. right. apply elem_of_app. by left.
Qed.

Lemma distinct_tags_labels_clean_witness :
  trimmed "hand hygiene" ∧ comma ∉ chars "hand hygiene".
Proof.
  apply (distinct_tags_labels_clean [example] "hand hygiene").
  apply (bool_decide_unpack _). vm_compute. exact I.
Defined.

(** The tag set of a frame is the union of the tag sets of its parts, so
    it does not depend on the order of the projects, and a project with no
    tags adds nothing. *)
Theorem distinct_tags_union :
  (∀ ps1 ps2 : list Project,
     distinct_tags (ps1 ++ ps2) = distinct_tags ps1 ∪ distinct_tags ps2) ∧
  (∀ ps1 ps2 : list Project,
     ps1 ≡ₚ ps2 → distinct_tags ps1 = distinct_tags ps2) ∧
  (∀ (p : Project) (ps : list Project),
     tags p = NaN ∨ tags p = Str "" →
     distinct_tags (p :: ps) = distinct_tags ps).
Proof.
  split; [| split].
  - intros ps1 ps2. apply set_eq. intros t.
    rewrite elem_of_union, !distinct_tags_elem. split.
    + intros (Hne & p & q & [Hp | Hp]%elem_of_app & Hq & ->);
        [left | right]; (split; [exact Hne |]); by exists p, q.
    + intros [(Hne & p & q & Hp & Hq & ->) | (Hne & p & q & Hp & Hq & ->)];
        (split; [exact Hne |]); exists p, q;
        (split; [apply elem_of_app; auto | by split]).
  - intros ps1 ps2 Hperm. apply set_eq. intros t.
    rewrite !distinct_tags_elem.
    split; intros (Hne & p & q & Hp & Hq & ->); (split; [exact Hne |]);
      exists p, q; (split; [| by split]);
      first [by rewrite <- Hperm | by rewrite Hperm].
  - intros p ps Htags. apply set_eq. intros t.
    rewrite !distinct_tags_elem. split.
    + intros (Hne & p' & q & [-> | Hp]%elem_of_cons & Hq & ->).
      * exfalso. apply Hne.
        destruct Htags as [Ht | Ht]; rewrite Ht in Hq; cbn in Hq;
          apply list_elem_of_singleton in Hq; by subst q.
      * split; [exact Hne |]. by exists p', q.
    + intros (Hne & p' & q & Hp & Hq & ->). split; [exact Hne |].
      exists p', q. split; [by right | by split].
Qed.



(** ** The option lists *)

Lemma ascii_compare_N (a b : ascii) :
  Ascii.compare a b = N.compare (N_of_ascii a) (N_of_ascii b).
Proof. reflexivity. Qed.

Lemma string_compare_trans (s1 s2 s3 : string) :
  String.compare s1 s2 ≠ Gt → String.compare s2 s3 ≠ Gt → String.compare s1 s3 ≠ Gt.
Proof.
  revert s2 s3. induction s1 as [|c1 s1 IH]; intros [|c2 s2] [|c3 s3]; simpl;
    try congruence.
  rewrite !ascii_compare_N.
  destruct (N.compare_spec (N_of_ascii c1) (N_of_ascii c2)) as [H12 | H12 | H12];
    destruct (N.compare_spec (N_of_ascii c2) (N_of_ascii c3)) as [H23 | H23 | H23];
    destruct (N.compare_spec (N_of_ascii c1) (N_of_ascii c3)) as [H13 | H13 | H13];
    try congruence; try lia.
  apply IH.
Qed.

Lemma str_le_trans : Transitive str_le.
Proof.
  intros s1 s2 s3. unfold str_le, String.leb. intros H12 H23.
  pose proof (string_compare_trans s1 s2 s3) as H.
  destruct (String.compare s1 s2); destruct (String.compare s2 s3);
    destruct (String.compare s1 s3); try reflexivity; try discriminate;
    exfalso; apply H; congruence.
Qed.

Lemma str_le_total : Total str_le.
Proof. intros s1 s2. apply String.leb_total. Qed.

Lemma str_le_antisymm : AntiSymm eq str_le.
Proof. intros s1 s2. apply String.leb_antisym. Qed.

Lemma sorted_spec (l : list string) :
  StronglySorted str_le (sorted l) ∧ sorted l ≡ₚ l ∧
  ∀ l', StronglySorted str_le l' → l' ≡ₚ l → l' = sorted l.
Proof.
  assert (Hs : StronglySorted str_le (sorted l)).
  { apply (@StronglySorted_merge_sort _ str_le _ str_le_trans str_le_total). }
  assert (Hp : sorted l ≡ₚ l) by apply merge_sort_Permutation.
  split; [exact Hs | split; [exact Hp |]].
  intros l' Hs' Hp'.
  apply (@StronglySorted_unique _ str_le str_le_antisymm); [exact Hs' | exact Hs |].
  by rewrite Hp, Hp'.
Qed.

Lemma elem_of_dropna (col : list cell) (s : string) : s ∈ dropna col ↔ Str s ∈ col.
Proof.
  unfold dropna. rewrite list_elem_of_omap. split.
  - intros (c & Hc & Hs). destruct c; [discriminate |]. by injection Hs as ->.
  - intros Hc. by exists (Str s).
Qed.

Lemma unique_spec (l : list string) :
  NoDup (unique l) ∧ ∀ x, x ∈ unique l ↔ x ∈ l.
Proof.
  induction l as [|y l [IHnd IHin]]; [split; [constructor | done] |].
  cbn [unique]. split.
  - constructor.
    + intros Hin. apply list_elem_of_filter in Hin as [Hne _]. by apply Hne.
    + by apply NoDup_filter.
  - intros x. rewrite !elem_of_cons, list_elem_of_filter, IHin.
    destruct (decide (x = y)); tauto.
Qed.

Lemma statuses_elem (projects : list Project) (s : string) :
  s ∈ statuses projects ↔ s = "All" ∨ ∃ p, p ∈ projects ∧ status p = Str s.
Proof.
  unfold statuses. rewrite elem_of_cons.
  destruct (sorted_spec (unique (dropna (status <$> projects)))) as (_ & Hp & _).
  destruct (unique_spec (dropna (status <$> projects))) as [_ Hin].
  rewrite Hp, Hin, elem_of_dropna, list_elem_of_fmap.
  split; (intros [-> | (p & H1 & H2)]; [by left | right; by exists p]).
Qed.

(** The status options are [All] followed by the statuses that occur in
    the frame, each once, in increasing order; a missing status gives no
    option.  The list after [All] is the only sorted arrangement of those
    values. *)
Theorem statuses_spec (projects : list Project) :
  ∃ rest,
    statuses projects = "All" :: rest ∧
    StronglySorted str_le rest ∧ NoDup rest ∧
    (∀ s, s ∈ rest ↔ ∃ p, p ∈ projects ∧ status p = Str s) ∧
    (∀ l, StronglySorted str_le l → NoDup l →
          (∀ s, s ∈ l ↔ ∃ p, p ∈ projects ∧ status p = Str s) → l = rest).
Proof.
  eexists. split; [reflexivity |].
  destruct (sorted_spec (unique (dropna (status <$> projects)))) as (Hs & Hp & Huniq).
  destruct (unique_spec (dropna (status <$> projects))) as [Hnd Hin].
  assert (Hmem : ∀ s, s ∈ sorted (unique (dropna (status <$> projects)))
                      ↔ ∃ p, p ∈ projects ∧ status p = Str s).
  { intros s. rewrite Hp, Hin, elem_of_dropna, list_elem_of_fmap. split.
    - intros (p & Hst & Hp'). by exists p.
    - intros (p & Hp' & Hst). by exists p. }
  split; [exact Hs |]. split; [by rewrite Hp |]. split; [exact Hmem |].
  intros l Hl Hndl Hlmem. apply Huniq; [exact Hl |].
  apply NoDup_Permutation; [exact Hndl | exact Hnd |].
  intros s. by rewrite Hlmem, <- Hmem, Hp.
Qed.

(** The tag options are [All] followed by the labels of the tag set, each
    once, in increasing order. *)
Theorem tag_options_spec (projects : list Project) :
  ∃ rest,
    tag_options projects = "All" :: rest ∧
    StronglySorted str_le rest ∧ NoDup rest ∧
    (∀ t, t ∈ rest ↔ t ∈ distinct_tags projects) ∧
    (∀ l, StronglySorted str_le l → NoDup l →
          (∀ t, t ∈ l ↔ t ∈ distinct_tags projects) → l = rest).
Proof.
  eexists. split; [reflexivity |].
  destruct (sorted_spec (elements (distinct_tags projects))) as (Hs & Hp & Huniq).
  assert (Hmem : ∀ t, t ∈ sorted (elements (distinct_tags projects))
                      ↔ t ∈ distinct_tags projects).
  { intros t. by rewrite Hp, elem_of_elements. }
  split; [exact Hs |]. split; [rewrite Hp; apply NoDup_elements |].
  split; [exact Hmem |].
  intros l Hl Hndl Hlmem. apply Huniq; [exact Hl |].
  apply NoDup_Permutation; [exact Hndl | apply NoDup_elements |].
  intros t. by rewrite Hlmem, elem_of_elements.
Qed.

(** A status the side bar offers always finds something: on a frame with
    rows, selecting any offered status (with tag [All]) gives a result that
    is not empty, and every row of it has that status unless the option is
    [All]. *)
Theorem offered_status_selects (projects : list Project) (s : string) :
  projects ≠ [] →
  s ∈ statuses projects →
  ∃ filtered,
    filter_projects projects s "All" = Ok filtered ∧
    filtered ≠ [] ∧
    (s ≠ "All" → Forall (fun p => status p = Str s) filtered).
Proof.
  intros Hne Hs. unfold filter_projects.
  destruct (decide ("All" ≠ "All")) as [Hno | _]; [congruence |].
  destruct (decide (s ≠ "All")) as [Hs' | Hs'%dec_stable].
  - eexists. split; [reflexivity |].
    destruct (statuses_elem projects s) as [Hfwd _].
    destruct (Hfwd Hs) as [-> | (p & Hp & Hst)]; [congruence |].
    split.
    + intros Hempty.
      assert (Hin : p ∈ filter_status s projects)
        by (apply list_elem_of_filter; by split).
      rewrite Hempty in Hin. by apply elem_of_nil in Hin.
    + intros _. apply Forall_forall. intros q Hq.
      by apply list_elem_of_filter in Hq as [Hq _].
  - exists projects. split; [reflexivity |]. split; [exact Hne | congruence].
Qed.

Lemma offered_status_selects_witness :
  ∃ filtered,
    filter_projects [example] "In Progress" "All" = Ok filtered ∧ filtered ≠ [].
Proof.
  destruct (offered_status_selects [example] "In Progress") as (f & Hf & Hne & _).
  - discriminate.
  - apply (bool_decide_unpack _). vm_compute. exact I.
  - by exists f.
Defined.

(** ** Selection *)

Lemma filter_imap_snd {A} (P : A → Prop)
    (H1 : ∀ x, Decision (P x)) (H2 : ∀ r : nat * A, Decision (P r.2))
    (g : nat → nat) (l : list A) :
  snd <$> @filter _ _ _ (fun r : nat * A => P r.2) H2 (imap (fun i x => (g i, x)) l)
  = @filter _ _ _ P H1 l.
Proof.
  revert g. induction l as [|x l IH]; intros g; [reflexivity |].
  cbn [imap]. rewrite !filter_cons. cbn [snd].
  change ((fun i (x0 : A) => (g i, x0)) ∘ S) with (fun i (x0 : A) => (g (S i), x0)).
  specialize (IH (g ∘ S)). unfold compose in IH.
  repeat case_decide; cbn [snd] in *; try contradiction;
    [rewrite fmap_cons |]; by rewrite IH.
Qed.

Lemma filter_fmap_snd {A} (P : A → Prop)
    (H1 : ∀ x, Decision (P x)) (H2 : ∀ r : nat * A, Decision (P r.2))
    (rows : list (nat * A)) :
  snd <$> @filter _ _ _ (fun r : nat * A => P r.2) H2 rows
  = @filter _ _ _ P H1 (snd <$> rows).
Proof.
  induction rows as [|[i x] rows IH]; [reflexivity |].
  rewrite fmap_cons, !filter_cons. cbn [snd].
  repeat case_decide; cbn [snd] in *; try contradiction;
    [rewrite fmap_cons |]; by rewrite IH.
Qed.

Lemma imap_pair_snd {A} (g : nat → nat) (l : list A) :
  snd <$> imap (fun i x => (g i, x)) l = l.
Proof.
  revert g. induction l as [|x l IH]; intros g; [reflexivity |].
  cbn [imap]. rewrite fmap_cons. f_equal. apply (IH (g ∘ S)).
Qed.

Lemma imap_pair_fst {A} (g : nat → nat) (l : list A) :
  fst <$> imap (fun i x => (g i, x)) l = g <$> seq 0 (length l).
Proof.
  revert g. induction l as [|x l IH]; intros g; [reflexivity |].
  cbn [imap length seq]. rewrite !fmap_cons. cbn [fst]. f_equal.
  change ((fun i (x0 : A) => (g i, x0)) ∘ S) with (fun i (x0 : A) => (g (S i), x0)).
  specialize (IH (g ∘ S)). unfold compose in IH.
  rewrite IH, <- fmap_S_seq, <- list_fmap_compose. reflexivity.
Qed.

Lemma with_index_fst (projects : list Project) :
  fst <$> with_index projects = seq 0 (length projects).
Proof.
  unfold with_index. rewrite (imap_pair_fst (fun i => i)). apply list_fmap_id.
Qed.

Lemma with_index_lookup (projects : list Project) (r : nat * Project) :
  r ∈ with_index projects → projects !! r.1 = Some r.2.
Proof.
  unfold with_index. intros (i & p & -> & Hi)%elem_of_lookup_imap. exact Hi.
Qed.

(** The filter on the frame with its index is the filter on the rows: the
    same outcome, and the same rows in the same order. *)
Lemma filter_rows_rows (projects : list Project) (selected_status selected_tag : string) :
  filter_projects projects selected_status selected_tag
  = rows ← filter_rows projects selected_status selected_tag;
    Ok (snd <$> (rows : list (nat * Project))).
Proof.
  unfold filter_projects, filter_rows, filter_status, with_index.
  destruct (decide (selected_tag ≠ "All")) as [Ht | Ht].
  - destruct (tags_is_object projects); [| reflexivity].
    destruct (re_compile selected_tag) as [r| |]; [| reflexivity..].
    cbn [mbind outcome_bind]. f_equal.
    destruct (decide (selected_status ≠ "All")).
    + rewrite (filter_fmap_snd (fun p => Is_true (str_contains r (tags p))) _ _).
      f_equal. symmetry.
      apply (filter_imap_snd (fun p => status p = Str selected_status) _ _ (fun i => i)).
    + symmetry.
      apply (filter_imap_snd (fun p => Is_true (str_contains r (tags p))) _ _ (fun i => i)).
  - cbn [mbind outcome_bind]. f_equal.
    destruct (decide (selected_status ≠ "All")).
    + symmetry.
      apply (filter_imap_snd (fun p => status p = Str selected_status) _ _ (fun i => i)).
    + symmetry. apply (imap_pair_snd (fun i => i)).
Qed.

(** Every option of the radio is a row of [projects]: the labels offered
    are labels of the frame, each once and in increasing order, the row
    shown for a label is the row at that label, and the handlers that take
    the selected label ("Save Project", "Delete project") do not raise
    [KeyError]. *)
Theorem selection_is_valid (projects : list Project)
    (selected_status selected_tag : string) (rows : list (nat * Project)) :
  filter_rows projects selected_status selected_tag = Ok rows →
  filter_projects projects selected_status selected_tag = Ok (snd <$> rows) ∧
  radio_options rows `sublist_of` seq 0 (length projects) ∧
  Forall (fun r => projects !! r.1 = Some r.2) rows ∧
  ∀ selected_index, selected_index ∈ radio_options rows →
    (∀ f, ∃ projects', update_project projects selected_index f = Ok projects') ∧
    (∀ pdsa, ∃ res, delete_project projects pdsa selected_index = Ok res).
Proof.
  intros Hrows.
  assert (Hsub : rows `sublist_of` with_index projects).
  { revert Hrows. unfold filter_rows.
    assert (Hst : (if decide (selected_status ≠ "All")
                   then filter (fun r : nat * Project => status r.2 = Str selected_status)
                          (with_index projects)
                   else with_index projects) `sublist_of` with_index projects).
    { destruct (decide (selected_status ≠ "All")); [apply sublist_filter | reflexivity]. }
    destruct (decide (selected_tag ≠ "All")).
    - destruct (tags_is_object projects); [| discriminate].
      destruct (re_compile selected_tag) as [r| |]; [| discriminate..].
      intros [= <-]. etrans; [apply sublist_filter | exact Hst].
    - intros [= <-]. exact Hst. }
  assert (Hlook : Forall (fun r => projects !! r.1 = Some r.2) rows).
  { apply Forall_forall. intros r Hr. apply with_index_lookup.
    eapply elem_of_sublist; [exact Hr | exact Hsub]. }
  split; [by rewrite filter_rows_rows, Hrows |].
  split; [rewrite <- with_index_fst; by apply fmap_sublist |].
  split; [exact Hlook |].
  intros i (r & -> & Hr)%list_elem_of_fmap.
  rewrite Forall_forall in Hlook. specialize (Hlook r Hr).
  split.
  - intros f. unfold update_project. rewrite Hlook. by eexists.
  - intros pdsa. unfold delete_project. rewrite Hlook. by eexists.
Qed.

Lemma selection_is_valid_witness :
  radio_options [(0%nat, example)] `sublist_of` seq 0 1.
Proof.
  apply (selection_is_valid [example] "In Progress" "hand" [(0%nat, example)]).
  reflexivity.
Defined.

(** ** Projects and their cycles *)





Lemma id_max_snoc (p : Project) (rest : list Project) (q : Project) :
  id_max p (rest ++ [q]) = Z.max (id_max p rest) (id q).
Proof.
  induction rest as [|r rest IH]; simpl; [lia |]. rewrite IH. lia.
Qed.

(** Ids are handed out in sequence: the id of a new project is above every
    id in use, and the next project added gets the id after it, as long as
    the ids stay below the largest int64. *)
Theorem next_id_successive (projects : list Project) (today : string) :
  Forall (fun p => int64_min <= id p < int64_max - 1) projects →
  Forall (fun p => id p < next_id projects) projects ∧
  next_id (add_project projects today) = next_id projects + 1.
Proof.
  intros Hb. split.
  - apply next_id_fresh. eapply Forall_impl; [exact Hb |]. simpl. intros; lia.
  - destruct projects as [|p rest]; [reflexivity |].
    unfold add_project. cbn [app next_id]. rewrite id_max_snoc. cbn [new_project id].
    assert (Hm : int64_min <= id_max p rest < int64_max - 1).
    { pose proof (id_max_elem p rest) as He.
      apply list_elem_of_fmap in He as (q & -> & Hq).
      rewrite Forall_forall in Hb. by apply Hb. }
    unfold int64_min, int64_max in Hm.
    rewrite (wrap64_id (id_max p rest + 1))
      by (unfold in_int64, int64_min, int64_max; lia).
    rewrite Z.max_r by lia.
    apply wrap64_id. unfold in_int64, int64_min, int64_max. lia.
Qed.

Lemma next_id_successive_witness :
  next_id (add_project [example] "2024-05-06") = next_id [example] + 1.
Proof.
  apply (next_id_successive [example] "2024-05-06").
  repeat constructor; vm_compute; congruence.
Defined.

(** "Save Project" changes the selected row and nothing else: the frame
    keeps its length, the row keeps its id and takes every other field from
    the form, and the other rows are untouched.  An index outside the frame
    is a [KeyError]. *)
Theorem update_project_frame (projects : list Project) (i : nat) (f : ProjectForm) :
  match projects !! i with
  | None => update_project projects i f = Raises KeyError
  | Some p =>
      ∃ projects',
        update_project projects i f = Ok projects' ∧
        length projects' = length projects ∧
        projects' !! i = Some (save_form f p) ∧
        id (save_form f p) = id p ∧
        (∀ j, j ≠ i → projects' !! j = projects !! j)
  end.
Proof.
  unfold update_project. destruct (projects !! i) as [p|] eqn:Hi; [| reflexivity].
  eexists. split; [reflexivity |]. split; [apply length_alter |].
  split; [by rewrite list_lookup_alter_eq, Hi |]. split; [reflexivity |].
  intros j Hj. by apply list_lookup_alter_ne.
Qed.

(** Saves compose as writes do: a second save of the same project
    overrides the first entirely, and saves of two different projects can
    be done in either order, with the same frame or the same error. *)
Theorem update_project_compose (projects : list Project) (i j : nat)
    (f g : ProjectForm) :
  (ps ← update_project projects i f; update_project ps i g)
  = update_project projects i g ∧
  (i ≠ j →
   (ps ← update_project projects i f; update_project ps j g)
   = (ps ← update_project projects j g; update_project ps i f)).
Proof.
  unfold update_project. split.
  - destruct (projects !! i) as [p|] eqn:Hi; [| reflexivity].
    cbn [mbind outcome_bind].
    rewrite list_lookup_alter_eq, Hi. cbn [fmap option_fmap option_map].
    f_equal. rewrite list_alter_alter_eq. apply list_alter_ext; [| reflexivity].
    intros q _. reflexivity.
  - intros Hij.
    destruct (projects !! i) as [p|] eqn:Hi; destruct (projects !! j) as [q|] eqn:Hj;
      cbn [mbind outcome_bind];
      rewrite ?list_lookup_alter_ne, ?Hi, ?Hj by congruence; try reflexivity.
    f_equal. by apply list_alter_alter_ne.
Qed.

Lemma update_project_compose_witness :
  (ps ← update_project [example; example] 0 (mkForm "a" "" "" "" "" "" "" "" "" "");
   update_project ps 1 (mkForm "b" "" "" "" "" "" "" "" "" ""))
  = (ps ← update_project [example; example] 1 (mkForm "b" "" "" "" "" "" "" "" "" "");
     update_project ps 0 (mkForm "a" "" "" "" "" "" "" "" "" "")).
Proof.
  apply (update_project_compose [example; example] 0 1). discriminate.
Defined.

Lemma filter_other_project (q pid : Z) (pdsa : list PdsaCycle) :
  q ≠ pid →
  filter (fun c => project_id c = q) (filter (fun c => project_id c ≠ pid) pdsa)
  = filter (fun c => project_id c = q) pdsa.
Proof.
  intros Hq. rewrite list_filter_filter. apply list_filter_iff.
  intros c. split; [tauto | intros Hc; split; [exact Hc | congruence]].
Qed.

Lemma filter_own_project (pid : Z) (pdsa : list PdsaCycle) :
  filter (fun c => project_id c = pid) (filter (fun c => project_id c ≠ pid) pdsa) = [].
Proof.
  apply filter_none. apply Forall_forall.
  intros c [Hc _]%list_elem_of_filter. tauto.
Qed.

(** "Save PDSA cycles" without an edit loses nothing: the cycles are the
    same up to order, every project keeps its cycles in their order (the
    cycles of the selected project move to the end of the table), and a
    second save changes nothing. *)
Theorem save_unedited_cycles (projects : list Project) (pdsa : list PdsaCycle)
    (i : nat) (project : Project) :
  projects !! i = Some project →
  ∃ pdsa',
    save_pdsa_cycles projects pdsa i (project_pdsa pdsa project) = Ok pdsa' ∧
    pdsa' ≡ₚ pdsa ∧
    (∀ q, project_pdsa pdsa' q = project_pdsa pdsa q) ∧
    save_pdsa_cycles projects pdsa' i (project_pdsa pdsa' project) = Ok pdsa'.
Proof.
  intros Hi. unfold save_pdsa_cycles. rewrite Hi. eexists. split; [reflexivity |].
  assert (Hq : ∀ q, project_pdsa (replace_pdsa_for_project pdsa (id project)
                                    (project_pdsa pdsa project)) q
                    = project_pdsa pdsa q).
  { intros q. unfold project_pdsa, replace_pdsa_for_project. rewrite filter_app.
    destruct (decide (id q = id project)) as [-> | Hne].
    - rewrite filter_own_project. cbn [app]. apply filter_all.
      apply Forall_forall. intros c [Hc _]%list_elem_of_filter. exact Hc.
    - rewrite filter_other_project by exact Hne.
      rewrite (filter_none (fun c => project_id c = id q)
                 (filter (fun c => project_id c = id project) pdsa)); [apply app_nil_r |].
      apply Forall_forall. intros c [Hc _]%list_elem_of_filter. congruence. }
  split; [| split; [exact Hq |]].
  - unfold replace_pdsa_for_project, project_pdsa.
    rewrite (comm app). apply keep_others_partition.
  - f_equal. rewrite Hq. unfold replace_pdsa_for_project at 1.
    rewrite (proj1 (replace_pdsa_split pdsa (id project) (project_pdsa pdsa project))).
    rewrite (filter_none (fun c => project_id c ≠ id project) (project_pdsa pdsa project));
      [by rewrite app_nil_r |].
    apply Forall_forall. intros c [Hc _]%list_elem_of_filter. tauto.
Qed.

Lemma save_unedited_cycles_witness :
  ∃ pdsa',
    save_pdsa_cycles [example; new_project 2 "2024-05-06"]
      [mkPdsa 1 (Str "a") NaN NaN NaN NaN NaN; mkPdsa 2 (Str "b") NaN NaN NaN NaN NaN] 0
      [mkPdsa 1 (Str "a") NaN NaN NaN NaN NaN]
    = Ok pdsa' ∧
    pdsa' = [mkPdsa 2 (Str "b") NaN NaN NaN NaN NaN; mkPdsa 1 (Str "a") NaN NaN NaN NaN NaN].
Proof.
  destruct (save_unedited_cycles [example; new_project 2 "2024-05-06"]
              [mkPdsa 1 (Str "a") NaN NaN NaN NaN NaN; mkPdsa 2 (Str "b") NaN NaN NaN NaN NaN]
              0 example eq_refl) as (pdsa' & Hrun & _).
  exists pdsa'. split; [exact Hrun |].
  vm_compute in Hrun. by injection Hrun as <-.
Defined.



(** ** The project form *)

(** The select box always starts on one of its four options: on the
    project's status when that is one of them, and on [In Progress] for a
    missing status or any other text, so that "Save Project" then replaces
    such a status. *)
Theorem status_index_spec (c : cell) :
  (status_index c < length status_options)%nat ∧
  (∀ s, c = Str s → s ∈ status_options →
        nth (status_index c) status_options "In Progress" = s) ∧
  ((∀ s, c = Str s → s ∉ status_options) →
   nth (status_index c) status_options "In Progress" = "In Progress").
Proof.
  destruct c as [|s]; cbn [status_index].
  - split; [cbn; lia |]. split; [discriminate | reflexivity].
  - destruct (decide (s ∈ status_options)) as [Hin | Hout].
    + assert (Hcases : s = "In Progress" ∨ s = "Completed" ∨ s = "On Hold"
                        ∨ s = "Cancelled").
      { unfold status_options in Hin.
        repeat (apply elem_of_cons in Hin as [-> | Hin]; [tauto |]).
        by apply elem_of_nil in Hin. }
      destruct Hcases as [-> | [-> | [-> | ->]]];
        (split; [vm_compute; lia |]);
        (split; [intros s' [= <-] _; vm_compute; reflexivity |]);
        intros Hno; exfalso; by eapply Hno.
    + split; [cbn; lia |]. split; [| reflexivity].
      intros s' [= <-] Hin. contradiction.
Qed.

Lemma status_index_spec_witness :
  nth (status_index (Str "On Hold")) status_options "In Progress" = "On Hold" ∧
  nth (status_index (Str "Done")) status_options "In Progress" = "In Progress".
Proof.
  split.
  - apply (status_index_spec (Str "On Hold")); [reflexivity |].
    apply (bool_decide_unpack _). vm_compute. exact I.
  - apply (status_index_spec (Str "Done")).
    intros s [= <-]. apply (bool_decide_unpack _). vm_compute. exact I.
Defined.

Lemma read_back_py_str (c : cell) : read_back (Str (py_str c)) = read_back c.
Proof. by destruct c. Qed.

(** Saving a project from the form as it opened keeps its id, and for the
    free-text fields it keeps what the next load reads: a field with a value
    is saved as it is, and a missing field is saved as the text [nan], which
    is read as missing again. *)
Theorem unedited_form_reads_back (p : Project) (start_date_ end_date_ : string) :
  let saved := save_form (form_defaults p start_date_ end_date_) p in
  id saved = id p ∧
  read_back (title saved) = read_back (title p) ∧
  read_back (smart_aim saved) = read_back (smart_aim p) ∧
  read_back (problem_statement saved) = read_back (problem_statement p) ∧
  read_back (metrics saved) = read_back (metrics p) ∧
  read_back (advisor saved) = read_back (advisor p) ∧
  read_back (service saved) = read_back (service p) ∧
  read_back (tags saved) = read_back (tags p) ∧
  (title p = NaN → title saved = Str "nan").
Proof.
  cbn [save_form form_defaults id title smart_aim problem_statement metrics advisor
       service tags f_title f_smart f_problem f_metrics f_advisor f_service
       f_tags_input].
  repeat split; try apply read_back_py_str.
  by intros ->.
Qed.

(** ** Import of a table *)

Lemma import_projects_run (tokenize : string → outcome table) (bytes : string)
    (t : table) (ps : list Project) (s : session) :
  tokenize bytes = Ok t →
  read_projects t = Ok ps →
  import_projects tokenize (Some bytes) s
  = (fst (save_data ps (pdsa_var s) (disk s)),
     mkSession (snd (save_data ps (pdsa_var s) (disk s))) ps (pdsa_var s)).
Proof.
  intros Htok Hread. unfold import_projects.
  erewrite bind_ok; cycle 1.
  { unfold pure. rewrite Htok. cbn [mbind outcome_bind]. by rewrite Hread. }
  erewrite bind_ok by reflexivity.
  unfold save_current, on_disk. cbn [disk projects_var pdsa_var].
  by destruct (save_data ps (pdsa_var s) (disk s)).
Qed.

(** An import that parses replaces the frame in memory at once and then
    saves: nothing of the old projects is merged in, the cycles in memory
    are kept, and when the save fails because there is no data folder the
    imported frame stays in memory although nothing was written. *)
Theorem import_projects_effect (tokenize : string → outcome table) (bytes : string)
    (t : table) (ps : list Project) (s : session) :
  tokenize bytes = Ok t →
  read_projects t = Ok ps →
  let after := snd (import_projects tokenize (Some bytes) s) in
  projects_var after = ps ∧
  pdsa_var after = pdsa_var s ∧
  (∀ old, import_projects tokenize (Some bytes) (mkSession (disk s) old (pdsa_var s))
          = import_projects tokenize (Some bytes) s) ∧
  (disk s = Absent ∨ disk s = NotADirectory →
   disk after = disk s ∧ fst (import_projects tokenize (Some bytes) s) ≠ Ok ()).
Proof.
  intros Htok Hread after. subst after.
  rewrite (import_projects_run _ _ _ _ s Htok Hread). cbn [fst snd projects_var pdsa_var disk].
  split; [reflexivity |]. split; [reflexivity |]. split.
  - intros old. by rewrite (import_projects_run _ _ _ _ _ Htok Hread).
  - intros Hno. unfold save_data, projects_to_csv, mbind, st_bind, pure.
    destruct (to_csv projects_columns (project_cells <$> ps));
      destruct Hno as [-> | ->]; split; first [reflexivity | discriminate].
Qed.

Lemma import_projects_effect_witness :
  projects_var
    (snd (import_projects (fun _ => Ok (mkTable projects_columns [])) (Some "id,title")
            (mkSession Absent [example] []))) = [].
Proof.
  apply (import_projects_effect (fun _ => Ok (mkTable projects_columns [])) "id,title"
           (mkTable projects_columns []) [] (mkSession Absent [example] [])
           eq_refl eq_refl).
Defined.

(** The two imports of one run are not a unit: when the projects upload
    parses and the cycles upload does not, the run ends with the parse
    error, and the imported projects are already in memory and on disk. *)
Theorem main_import_partial (tokenize : string → outcome table)
    (proj_bytes pdsa_bytes : string) (t : table) (ps ps0 : list Project)
    (cs0 : list PdsaCycle) (s : session) (d d' : storage) :
  tokenize proj_bytes = Ok t →
  read_projects t = Ok ps →
  tokenize pdsa_bytes = Raises ParserError →
  load_data (disk s) = (Ok (ps0, cs0), d) →
  save_data ps cs0 d = (Ok (), d') →
  main_import tokenize (Some proj_bytes) (Some pdsa_bytes) s
  = (Raises ParserError, mkSession d' ps cs0).
Proof.
  intros Htok Hread Hbad Hload Hsave. unfold main_import.
  erewrite bind_ok by (unfold on_disk; by rewrite Hload). cbn beta.
  erewrite bind_ok by reflexivity. cbn beta.
  erewrite bind_ok by reflexivity. cbn beta.
  erewrite bind_ok; cycle 1.
  { rewrite (import_projects_run _ _ _ _ _ Htok Hread).
    cbn [disk projects_var pdsa_var fst snd]. by rewrite Hsave. }
  unfold import_pdsa. apply bind_raises.
  unfold pure. by rewrite Hbad.
Qed.

Lemma main_import_partial_witness :
  main_import
    (fun b => if decide (b = "ok") then Ok (mkTable projects_columns []) else Raises ParserError)
    (Some "ok") (Some "") (mkSession Absent [] [])
  = (Raises ParserError,
     mkSession (snd (save_data [] [] (snd (ensure_data_dir Absent)))) [] []).
Proof.
  apply (main_import_partial
           (fun b => if decide (b = "ok") then Ok (mkTable projects_columns [])
                     else Raises ParserError)
           "ok" "" (mkTable projects_columns []) [] [example] []
           (mkSession Absent [] []) (snd (ensure_data_dir Absent))); reflexivity.
Defined.

(** ** Filtering with plain selectors *)

(** With a tag selector that has no special character, on a frame whose
    tags column is text, the filter keeps exactly the rows whose status is
    the selected one (every row for [All]) and whose tags hold the selected
    tag as a substring (every row for [All]), in the order of the frame;
    both tests tell upper case from lower case.  With the tag selector
    [All] the tags column is not looked at, so the filter succeeds on any
    frame. *)
Theorem filter_projects_plain (projects : list Project)
    (selected_status selected_tag : string) :
  tags_is_object projects = true →
  literal_pattern selected_tag = true →
  (∃ filtered,
     filter_projects projects selected_status selected_tag = Ok filtered ∧
     filtered `sublist_of` projects ∧
     ∀ p, p ∈ filtered ↔
          p ∈ projects ∧ status_selected selected_status p ∧
          tag_selected selected_tag p) ∧
  (∀ frame : list Project, ∃ filtered,
     filter_projects frame selected_status "All" = Ok filtered ∧
     filtered `sublist_of` frame).
Proof.
  intros Hobj Hlit.
  split; [by apply filter_projects_literal_tag |].
  intros frame. unfold filter_projects.
  destruct (decide ("All" ≠ "All")) as [Hno | _]; [congruence |].
  destruct (decide (selected_status ≠ "All")); eexists;
    (split; [reflexivity |]); [apply sublist_filter | reflexivity].
Qed.

Lemma filter_projects_plain_witness :
  ∃ filtered,
    filter_projects [example] "In Progress" "hygiene" = Ok filtered ∧
    filtered `sublist_of` [example].
Proof.
  destruct (filter_projects_plain [example] "In Progress" "hygiene" eq_refl eq_refl)
    as [(filtered & Hrun & Hsub & _) _].
  by exists filtered.
Defined.

Lemma distinct_tags_union_witness :
  distinct_tags [example; new_project 2 "2024-05-06"] = distinct_tags [example].
Proof.
  destruct distinct_tags_union as (_ & Hperm & Hnone).
  rewrite (Hperm [example; new_project 2 "2024-05-06"] [new_project 2 "2024-05-06"; example])
    by apply Permutation_swap.
  apply Hnone. by right.
Defined.
